(** * BorshAccountsCoder: the account header and the encode/decode path

    A shallow embedding of [ts/src/coder/borsh/accounts.ts]:
    [BorshAccountHeader] (discriminator, header bytes, offsets) and
    [BorshAccountsCoder] (constructor, encode, decode, decodeUnchecked,
    memcmp), with the properties the specification states about them.

    Conventions.
    - A [Buffer] is a list of bytes; [slice] has the clamping semantics of
      [Buffer.prototype.slice] for the non-negative indices the code uses.
    - A thrown exception is the [Err] case of [outcome]; each [throw] of the
      source has its own constructor of [error].
    - Account names are ASCII strings (the names an IDL carries), so a
      string and its UTF-8 bytes coincide.
    - [encode] is [async] in the source; its result is the value the
      promise resolves to (or the error it rejects with). *)

From Stdlib Require Import ZArith NArith Strings.Byte Ascii String List Lia.
From stdpp Require Import base option gmap strings list.
Import ListNotations.

Local Open Scope Z_scope.

(** ** Buffers *)

Abbreviation Buffer := (list byte).

Definition byte_of_Z (z : Z) : byte :=
  match Byte.of_N (Z.to_N (z mod 256)) with
  | Some b => b
  | None => x00
  end.

Definition Z_of_byte (b : byte) : Z := Z.of_N (Byte.to_N b).

(** [Buffer.alloc(n)]: [n] zero bytes. *)
Definition Buffer_alloc (n : nat) : Buffer := repeat x00 n.

(** [b.slice(start, end)] and [b.slice(start)] for [0 <= start], [0 <= end]:
    both indices are clamped to the length, an empty range gives an empty
    buffer. *)
Definition slice (b : Buffer) (start end_ : nat) : Buffer :=
  firstn (end_ - start) (skipn start b).

Definition slice_from (b : Buffer) (start : nat) : Buffer := skipn start b.

(** [a.compare(b)]: -1, 0 or 1 by lexicographic order on unsigned bytes,
    a proper prefix being smaller. *)
Fixpoint Buffer_compare (a b : Buffer) : Z :=
  match a, b with
  | [], [] => 0
  | [], _ :: _ => -1
  | _ :: _, [] => 1
  | x :: a', y :: b' =>
      if Z_of_byte x <? Z_of_byte y then -1
      else if Z_of_byte y <? Z_of_byte x then 1
      else Buffer_compare a' b'
  end.

(** ** SHA-256 *)

Module SHA256.

(** Modelled from the spec: the [js-sha256] package ([sha256.digest]) is
    not part of the sources; the specification names the digest SHA-256,
    which is given here as in FIPS 180-4 on 32-bit words held in [Z]. *)
Definition add32 (x y : Z) : Z := (x + y) mod 2 ^ 32.

Definition rotr (n x : Z) : Z :=
  Z.lor (Z.shiftr x n) (Z.shiftl x (32 - n) mod 2 ^ 32).

Definition not32 (x : Z) : Z := Z.lxor x (2 ^ 32 - 1).

Definition ch (x y z : Z) : Z := Z.lxor (Z.land x y) (Z.land (not32 x) z).
Definition maj (x y z : Z) : Z :=
  Z.lxor (Z.lxor (Z.land x y) (Z.land x z)) (Z.land y z).
Definition bsig0 (x : Z) : Z := Z.lxor (Z.lxor (rotr 2 x) (rotr 13 x)) (rotr 22 x).
Definition bsig1 (x : Z) : Z := Z.lxor (Z.lxor (rotr 6 x) (rotr 11 x)) (rotr 25 x).
Definition ssig0 (x : Z) : Z := Z.lxor (Z.lxor (rotr 7 x) (rotr 18 x)) (Z.shiftr x 3).
Definition ssig1 (x : Z) : Z := Z.lxor (Z.lxor (rotr 17 x) (rotr 19 x)) (Z.shiftr x 10).

(** Round constants: the fractional parts of the cube roots of the first
    64 primes, 32 bits each. *)
Definition round_constants : list Z :=
  [1116352408; 1899447441; 3049323471; 3921009573; 961987163; 1508970993;
   2453635748; 2870763221; 3624381080; 310598401; 607225278; 1426881987;
   1925078388; 2162078206; 2614888103; 3248222580; 3835390401; 4022224774;
   264347078; 604807628; 770255983; 1249150122; 1555081692; 1996064986;
   2554220882; 2821834349; 2952996808; 3210313671; 3336571891; 3584528711;
   113926993; 338241895; 666307205; 773529912; 1294757372; 1396182291;
   1695183700; 1986661051; 2177026350; 2456956037; 2730485921; 2820302411;
   3259730800; 3345764771; 3516065817; 3600352804; 4094571909; 275423344;
   430227734; 506948616; 659060556; 883997877; 958139571; 1322822218;
   1537002063; 1747873779; 1955562222; 2024104815; 2227730452; 2361852424;
   2428436474; 2756734187; 3204031479; 3329325298].

(** The eight working words. *)
Record words8 : Type := W8 { wa : Z; wb : Z; wc : Z; wd : Z; we : Z; wf : Z; wg : Z; wh : Z }.

Definition initial_hash : words8 :=
  W8 1779033703 3144134277 1013904242 2773480762
     1359893119 2600822924 528734635 1541459225.

(** Padding: a 1 bit, zeros up to 56 mod 64, then the bit length on 64
    bits, big-endian. *)
Definition be_bytes (width : nat) (x : Z) : list Z :=
  map (fun i => Z.shiftr x (8 * Z.of_nat i) mod 256) (rev (seq 0 width)).

Definition pad (msg : list Z) : list Z :=
  let len := Z.of_nat (length msg) in
  msg ++ [128] ++ repeat 0 (Z.to_nat ((55 - len) mod 64)) ++ be_bytes 8 (8 * len).

Fixpoint be_words (n : nat) (bs : list Z) : list Z :=
  match n, bs with
  | S n', b0 :: b1 :: b2 :: b3 :: rest =>
      (((b0 * 256 + b1) * 256 + b2) * 256 + b3) :: be_words n' rest
  | _, _ => []
  end.

(** Message schedule, most recent word first. *)
Fixpoint schedule (n : nat) (wrev : list Z) : list Z :=
  match n with
  | O => wrev
  | S n' =>
      let w := add32 (add32 (ssig1 (nth 1 wrev 0)) (nth 6 wrev 0))
                     (add32 (ssig0 (nth 14 wrev 0)) (nth 15 wrev 0)) in
      schedule n' (w :: wrev)
  end.

Definition round (s : words8) (kw : Z * Z) : words8 :=
  let t1 := add32 (add32 (add32 (wh s) (bsig1 (we s))) (ch (we s) (wf s) (wg s)))
                  (add32 (fst kw) (snd kw)) in
  let t2 := add32 (bsig0 (wa s)) (maj (wa s) (wb s) (wc s)) in
  W8 (add32 t1 t2) (wa s) (wb s) (wc s) (add32 (wd s) t1) (we s) (wf s) (wg s).

Definition compress (h : words8) (block : list Z) : words8 :=
  let w := rev (schedule 48 (rev (be_words 16 block))) in
  let s := fold_left round (combine round_constants w) h in
  W8 (add32 (wa h) (wa s)) (add32 (wb h) (wb s)) (add32 (wc h) (wc s))
     (add32 (wd h) (wd s)) (add32 (we h) (we s)) (add32 (wf h) (wf s))
     (add32 (wg h) (wg s)) (add32 (wh h) (wh s)).

Fixpoint blocks (n : nat) (h : words8) (bs : list Z) : words8 :=
  match n with
  | O => h
  | S n' => blocks n' (compress h (firstn 64 bs)) (skipn 64 bs)
  end.

Definition word_bytes (w : Z) : Buffer := map byte_of_Z (be_bytes 4 w).

Definition output (h : words8) : Buffer :=
  word_bytes (wa h) ++ word_bytes (wb h) ++ word_bytes (wc h) ++ word_bytes (wd h) ++
  word_bytes (we h) ++ word_bytes (wf h) ++ word_bytes (wg h) ++ word_bytes (wh h).

Definition hash (msg : Buffer) : Buffer :=
  let padded := pad (map Z_of_byte msg) in
  output (blocks (length padded / 64) initial_hash padded).

(** Modelled from the spec: [sha256.digest(message)] of the [js-sha256]
    package, for a string message: the 32 bytes of its SHA-256 digest. *)
Definition digest (message : string) : Buffer :=
  hash (list_byte_of_string message).

End SHA256.

(** ** Base58 *)

Module Base58.

(** Modelled from the spec: the [bs58] package ([bs58.encode]) is not part
    of the sources; the specification says the discriminator is
    base58-encoded for transport.  This is the usual encoder over the
    Bitcoin alphabet: one ['1'] per leading zero byte, then the base-58
    digits of the big-endian number. *)
Definition ALPHABET : string :=
  "123456789ABCDEFGHJKLMNPQRSTUVWXYZabcdefghijkmnopqrstuvwxyz".

Definition digit_char (d : Z) : ascii :=
  match String.get (Z.to_nat d) ALPHABET with
  | Some c => c
  | None => "1"%char
  end.

(** [b58 = b58 * 256 + carry] on little-endian base-58 digits. *)
Fixpoint muladd (digits : list Z) (carry : Z) : list Z :=
  match digits with
  | d :: ds =>
      let c := carry + 256 * d in
      c mod 58 :: muladd ds (c / 58)
  | [] =>
      if carry =? 0 then []
      else if carry / 58 =? 0 then [carry mod 58]
      else [carry mod 58; carry / 58 mod 58]
  end.

Fixpoint leading_zeroes (source : Buffer) : nat :=
  match source with
  | x00 :: rest => S (leading_zeroes rest)
  | _ => O
  end.

(** Modelled from the spec: [bs58.encode(source)] of the [bs58] package. *)
Definition encode (source : Buffer) : string :=
  let zeroes := leading_zeroes source in
  let digits := fold_left muladd (map Z_of_byte (skipn zeroes source)) [] in
  string_of_list_ascii (repeat "1"%char zeroes ++ map digit_char (rev digits)).

End Base58.

(** ** Canonical case of a type name *)

Module Camelcase.

Local Open Scope nat_scope.

(** Modelled from the spec: the [camelcase] package is not part of the
    sources; the specification calls its result (with [pascalCase: true])
    the canonical capitalized-word-concatenation form of a type name.
    The definitions follow release 5.3.1 of the package on ASCII input:
    [preserveCamelCase] marks the word boundaries of a mixed-case name
    with ['-'], then the separators are dropped and the letter after each
    is capitalized. *)
Definition in_range (lo hi : nat) (c : ascii) : bool :=
  (lo <=? nat_of_ascii c) && (nat_of_ascii c <=? hi).

Definition is_upper (c : ascii) : bool := in_range 65 90 c.
Definition is_lower (c : ascii) : bool := in_range 97 122 c.
Definition is_letter (c : ascii) : bool := is_upper c || is_lower c.
Definition is_digit (c : ascii) : bool := in_range 48 57 c.
(** [\w] *)
Definition is_word (c : ascii) : bool := is_letter c || is_digit c || Ascii.eqb c "_".
(** [[_.\- ]] *)
Definition is_sep (c : ascii) : bool :=
  Ascii.eqb c "_" || Ascii.eqb c "." || Ascii.eqb c "-" || Ascii.eqb c " ".
(** The ASCII white space that [trim] removes. *)
Definition is_space (c : ascii) : bool := in_range 9 13 c || Ascii.eqb c " ".

Definition toUpperCase (c : ascii) : ascii :=
  if is_lower c then ascii_of_nat (nat_of_ascii c - 32) else c.
Definition toLowerCase (c : ascii) : ascii :=
  if is_upper c then ascii_of_nat (nat_of_ascii c + 32) else c.

Fixpoint chars_eqb (a b : list ascii) : bool :=
  match a, b with
  | [], [] => true
  | x :: a', y :: b' => Ascii.eqb x y && chars_eqb a' b'
  | _, _ => false
  end.

Fixpoint drop_while (p : ascii -> bool) (s : list ascii) : list ascii :=
  match s with
  | c :: s' => if p c then drop_while p s' else s
  | [] => []
  end.

Definition trim (s : list ascii) : list ascii :=
  rev (drop_while is_space (rev (drop_while is_space s))).

(** The loop of [preserveCamelCase]: the string under edit, the index
    [i] and the three flags. *)
Record pcc_state : Type := PccState {
  pcc_string : list ascii;
  pcc_i : nat;
  isLastCharLower : bool;
  isLastCharUpper : bool;
  isLastLastCharUpper : bool
}.

Definition insert_dash (s : list ascii) (i : nat) : list ascii :=
  firstn i s ++ "-"%char :: skipn i s.

Definition pcc_body (st : pcc_state) (character : ascii) : pcc_state :=
  let s := pcc_string st in
  let i := pcc_i st in
  if isLastCharLower st && is_letter character
     && Ascii.eqb (toUpperCase character) character then
    PccState (insert_dash s i) (i + 1 + 1) false true (isLastCharUpper st)
  else if isLastCharUpper st && isLastLastCharUpper st && is_letter character
          && Ascii.eqb (toLowerCase character) character then
    PccState (insert_dash s (i - 1)) (i + 1) true false (isLastCharUpper st)
  else
    PccState s (i + 1)
      (Ascii.eqb (toLowerCase character) character
       && negb (Ascii.eqb (toUpperCase character) character))
      (Ascii.eqb (toUpperCase character) character
       && negb (Ascii.eqb (toLowerCase character) character))
      (isLastCharUpper st).

Fixpoint pcc_loop (fuel : nat) (st : pcc_state) : pcc_state :=
  match fuel with
  | O => st
  | S fuel' =>
      match nth_error (pcc_string st) (pcc_i st) with
      | Some character => pcc_loop fuel' (pcc_body st character)
      | None => st
      end
  end.

(** Each step moves [i] towards the end except the second branch, which
    is always followed by a step of the third; twice the length bounds
    the number of steps. *)
Definition preserveCamelCase (s : list ascii) : list ascii :=
  pcc_string (pcc_loop (2 * length s) (PccState s 0 false false false)).

(** One match of [[_.\- ]+(\w|$)] after its first separator: the captured
    group and the number of further characters consumed, longest run of
    separators first. *)
Fixpoint sep_match (s : list ascii) : option (list ascii * nat) :=
  match s with
  | [] => Some ([], 0)
  | c :: s' =>
      if is_sep c then
        match sep_match s' with
        | Some (p1, n) => Some (p1, S n)
        | None => if is_word c then Some ([c], 1) else None
        end
      else if is_word c then Some ([c], 1)
      else None
  end.

(** [.replace(/[_.\- ]+(\w|$)/g, (_, p1) => p1.toUpperCase())]; [skip]
    counts the characters of the current match still to pass over. *)
Fixpoint replace_separators (skip : nat) (s : list ascii) : list ascii :=
  match s with
  | [] => []
  | c :: s' =>
      match skip with
      | S k => replace_separators k s'
      | O =>
          if is_sep c then
            match sep_match s' with
            | Some (p1, n) => map toUpperCase p1 ++ replace_separators n s'
            | None => c :: replace_separators 0 s'
            end
          else c :: replace_separators 0 s'
      end
  end.

(** One match of [\d+(\w|$)] after its first digit: the number of further
    characters of the match. *)
Fixpoint digit_match (s : list ascii) : option nat :=
  match s with
  | [] => Some 0
  | c :: s' =>
      if is_digit c then
        match digit_match s' with
        | Some n => Some (S n)
        | None => Some 1
        end
      else if is_word c then Some 1
      else None
  end.

(** [.replace(/\d+(\w|$)/g, m => m.toUpperCase())]; [up] counts the
    characters of the current match still to capitalize. *)
Fixpoint replace_digits (up : nat) (s : list ascii) : list ascii :=
  match s with
  | [] => []
  | c :: s' =>
      match up with
      | S k => toUpperCase c :: replace_digits k s'
      | O =>
          if is_digit c then
            match digit_match s' with
            | Some n => toUpperCase c :: replace_digits n s'
            | None => c :: replace_digits 0 s'
            end
          else c :: replace_digits 0 s'
      end
  end.

Definition postProcess (pascalCase : bool) (x : list ascii) : list ascii :=
  if pascalCase then
    match x with
    | c :: rest => toUpperCase c :: rest
    | [] => []
    end
  else x.

(** Modelled from the spec: [camelcase(input, {pascalCase})] of the
    [camelcase] package, the canonical form of a type name. *)
Definition camelCase (input : string) (pascalCase : bool) : string :=
  let input := trim (list_ascii_of_string input) in
  match input with
  | [] => EmptyString
  | [c] => String (if pascalCase then toUpperCase c else toLowerCase c) EmptyString
  | _ =>
      let hasUpperCase := negb (chars_eqb input (map toLowerCase input)) in
      let input := if hasUpperCase then preserveCamelCase input else input in
      string_of_list_ascii
        (postProcess pascalCase
           (replace_digits 0
              (replace_separators 0
                 (map toLowerCase (drop_while is_sep input)))))
  end.

End Camelcase.

(** ** Exceptions *)

(** What the coder throws: the two [Error]s of the source, the [TypeError]
    of a method call on the unset [this.header], and whatever a Layout or
    the Layout builder throws, passed through unchanged. *)
Inductive error : Type :=
| UnknownAccount (accountName : string)   (* `Unknown account: ${accountName}` *)
| InvalidAccountDiscriminator             (* "Invalid account discriminator" *)
| TypeError                               (* [this.header] is [undefined] *)
| LayoutError (msg : string)              (* thrown by [layout.encode] / [layout.decode] *)
| IdlError (msg : string).                (* thrown by [IdlCoder.typeDefLayout] *)

Inductive outcome (E A : Type) : Type :=
| Ok (a : A)
| Err (e : E).
Arguments Ok {E A} a.
Arguments Err {E A} e.

#[global] Instance outcome_ret {E} : MRet (outcome E) := fun A a => Ok a.
#[global] Instance outcome_bind {E} : MBind (outcome E) := fun A B f r =>
  match r with
  | Ok a => f a
  | Err e => Err e
  end.

(** An exception of the Layout library crossing the coder. *)
Definition rethrow {A} (wrap : string -> error) (r : outcome string A) : outcome error A :=
  match r with
  | Ok a => Ok a
  | Err msg => Err (wrap msg)
  end.

(** ** The IDL and the Layout capability *)

(** The fields of [Idl] and [IdlTypeDef] that the coder reads; the body of
    a type definition ([IdlTypeDefTy]) is only handed on to the Layout
    builder. *)
Record IdlTypeDef (IdlTypeDefTy : Type) : Type := {
  name : string;
  type : IdlTypeDefTy
}.
Arguments name {IdlTypeDefTy} _.
Arguments type {IdlTypeDefTy} _.

Record Idl (IdlTypeDefTy : Type) : Type := {
  accounts : option (list (IdlTypeDef IdlTypeDefTy));
  types : option (list (IdlTypeDef IdlTypeDefTy));
  layoutVersion : option string
}.
Arguments accounts {IdlTypeDefTy} _.
Arguments types {IdlTypeDefTy} _.
Arguments layoutVersion {IdlTypeDefTy} _.

(** [Layout] of [buffer-layout]: [encode(src, b)] writes into [b] from
    offset 0 and returns the number of bytes written, [decode(b)] reads a
    value back; either may throw. *)
Record Layout (Value : Type) : Type := {
  layout_encode : Value -> Buffer -> outcome string (nat * Buffer);
  layout_decode : Buffer -> outcome string Value
}.
Arguments layout_encode {Value} _ _ _.
Arguments layout_decode {Value} _ _.

(** [GetProgramAccountsFilter]: the [memcmp] member of the filter object. *)
Record MemcmpFilter : Type := {
  offset : nat;
  bytes : string
}.

(** ** Constants *)

Definition ACCOUNT_HEADER_SIZE : nat := 8.
Definition ACCOUNT_DISCRIMINATOR_SIZE : nat := 4.
Definition DEPRECATED_ACCOUNT_DISCRIMINATOR_SIZE : nat := 8.

(** ** BorshAccountHeader *)

Module BorshAccountHeader.
Section Header.
Context {IdlTypeDefTy : Type}.

Record t : Type := new { _idl : Idl IdlTypeDefTy }.

Definition discriminatorSize (this : t) : nat :=
  match layoutVersion (_idl this) with
  | None => DEPRECATED_ACCOUNT_DISCRIMINATOR_SIZE
  | Some _ => ACCOUNT_DISCRIMINATOR_SIZE
  end.

Definition discriminator (this : t) (name : string) (nameSpace : option string) : Buffer :=
  slice
    (SHA256.digest
       (default "account" nameSpace ++ ":" ++ Camelcase.camelCase name true)%string)
    0 (discriminatorSize this).

Definition encode (this : t) (accountName : string) (nameSpace : option string) : Buffer :=
  match layoutVersion (_idl this) with
  | None => discriminator this accountName nameSpace
  | Some _ =>
      [x00] ++ [x00] ++ discriminator this accountName nameSpace ++ [x00; x00]
  end.

Definition discriminatorOffset (this : t) : nat :=
  match layoutVersion (_idl this) with
  | None => 0
  | Some _ => 2
  end.

Definition size : nat := ACCOUNT_HEADER_SIZE.

Definition parseDiscriminator (this : t) (data : Buffer) : Buffer :=
  match layoutVersion (_idl this) with
  | None => slice data 0 8
  | Some _ => slice data 2 6
  end.

End Header.
Arguments t : clear implicits.
End BorshAccountHeader.

(** ** BorshAccountsCoder *)

Module BorshAccountsCoder.
Section Coder.
Context {Value IdlTypeDefTy : Type}.

(** [IdlCoder.typeDefLayout(acc, idl.types)], defined in [./idl.js]: the
    Layout of an account type, or an exception when the definition
    cannot be resolved. *)
Context (typeDefLayout :
           IdlTypeDef IdlTypeDefTy -> option (list (IdlTypeDef IdlTypeDefTy)) ->
           outcome string (Layout Value)).

Record t : Type := {
  accountLayouts : gmap string (Layout Value);
  idl : option (Idl IdlTypeDefTy);
  header : option (BorshAccountHeader.t IdlTypeDefTy)
}.

(** [idl.accounts.map((acc) => [acc.name, typeDefLayout(acc, idl.types)])] *)
Fixpoint account_layouts (accs : list (IdlTypeDef IdlTypeDefTy))
         (tys : option (list (IdlTypeDef IdlTypeDefTy)))
  : outcome error (list (string * Layout Value)) :=
  match accs with
  | [] => Ok []
  | acc :: rest =>
      layout ← rethrow IdlError (typeDefLayout acc tys);
      layouts ← account_layouts rest tys;
      Ok ((name acc, layout) :: layouts)
  end.

(** [new Map(layouts)]: entries are set in order, a later entry for the
    same key replaces the earlier one. *)
Definition Map_of (layouts : list (string * Layout Value)) : gmap string (Layout Value) :=
  fold_left (fun m kv => <[kv.1 := kv.2]> m) layouts ∅.

Definition constructor (idl0 : Idl IdlTypeDefTy) : outcome error t :=
  match accounts idl0 with
  | None =>
      Ok {| accountLayouts := ∅; idl := None; header := None |}
  | Some accs =>
      layouts ← account_layouts accs (types idl0);
      Ok {| accountLayouts := Map_of layouts;
            idl := Some idl0;
            header := Some (BorshAccountHeader.new idl0) |}
  end.

(** A method call on [this.header]. *)
Definition the_header (this : t) : outcome error (BorshAccountHeader.t IdlTypeDefTy) :=
  match header this with
  | Some h => Ok h
  | None => Err TypeError
  end.

Definition encode (this : t) (accountName : string) (account : Value)
  : outcome error Buffer :=
  let buffer := Buffer_alloc 1000 in
  match accountLayouts this !! accountName with
  | None => Err (UnknownAccount accountName)
  | Some layout =>
      '(len, buffer) ← rethrow LayoutError (layout_encode layout account buffer);
      let accountData := slice buffer 0 len in
      h ← the_header this;
      let header := BorshAccountHeader.encode h accountName None in
      Ok (header ++ accountData)
  end.

Definition decodeUnchecked (this : t) (accountName : string) (ix : Buffer)
  : outcome error Value :=
  let data := slice_from ix BorshAccountHeader.size in
  match accountLayouts this !! accountName with
  | None => Err (UnknownAccount accountName)
  | Some layout => rethrow LayoutError (layout_decode layout data)
  end.

Definition decode (this : t) (accountName : string) (data : Buffer)
  : outcome error Value :=
  h ← the_header this;
  let expectedDiscriminator := BorshAccountHeader.discriminator h accountName None in
  let givenDisc := BorshAccountHeader.parseDiscriminator h data in
  if negb (Buffer_compare expectedDiscriminator givenDisc =? 0) then
    Err InvalidAccountDiscriminator
  else decodeUnchecked this accountName data.

Definition memcmp (this : t) (accountName : string) : outcome error MemcmpFilter :=
  h ← the_header this;
  let discriminator := BorshAccountHeader.discriminator h accountName None in
  Ok {| offset := BorshAccountHeader.discriminatorOffset h;
        bytes := Base58.encode discriminator |}.

Definition memcmpDataOffset (this : t) : nat := BorshAccountHeader.size.

End Coder.
Arguments t : clear implicits.
End BorshAccountsCoder.

(** ** What the properties are stated with *)

(** A Layout writes the body [bs] for the value [v]: into a buffer that can
    hold it, it writes exactly [bs] from offset 0 and reports its length;
    on a shorter buffer the write overruns and throws. *)
Definition writes_body {Value} (L : Layout Value) (v : Value) (bs : Buffer) : Prop :=
  forall b : Buffer,
    if (length bs <=? length b)%nat
    then layout_encode L v b = Ok (length bs, bs ++ skipn (length bs) b)
    else exists msg, layout_encode L v b = Err msg.

(** The discriminator in the words of the specification: the SHA-256 digest
    of ["<namespace>:<CanonicalCase(typeName)>"], the namespace defaulting
    to ["account"], cut to 4 bytes in the versioned format and to 8 bytes
    in the legacy one. *)
Definition spec_discriminator (versioned : bool) (typeName : string)
           (namespaceOverride : option string) : Buffer :=
  let namespace :=
    match namespaceOverride with
    | Some ns => ns
    | None => "account"%string
    end in
  firstn (if versioned then 4 else 8)%nat
         (SHA256.digest (namespace ++ ":" ++ Camelcase.camelCase typeName true)%string).

Definition versioned {IdlTypeDefTy} (i : Idl IdlTypeDefTy) : bool :=
  match layoutVersion i with
  | Some _ => true
  | None => false
  end.

(** The measure that decreases along the loop of [preserveCamelCase]. *)
Definition pcc_measure (st : Camelcase.pcc_state) : nat :=
  (2 * (length (Camelcase.pcc_string st) - Camelcase.pcc_i st)
   + (if Camelcase.isLastCharUpper st && Camelcase.isLastLastCharUpper st then 1 else 0))%nat.

Definition hex (b : Buffer) : list Z := map Z_of_byte b.
Definition unhex (l : list Z) : Buffer := map byte_of_Z l.

(** ** A concrete schema *)

(** Two account types with Layouts in the style of the borsh ones: an
    unsigned 64-bit counter and a length-prefixed byte string. *)
Module Demo.

Inductive ty : Type := TyU64 | TyBytes.

Inductive value : Type :=
| VU64 (n : Z)
| VBytes (b : Buffer).

Definition le_bytes (width : nat) (x : Z) : Buffer :=
  map (fun i => byte_of_Z (Z.shiftr x (8 * Z.of_nat i))) (seq 0 width).

Fixpoint le_value (bs : Buffer) : Z :=
  match bs with
  | [] => 0
  | b :: rest => Z_of_byte b + 256 * le_value rest
  end.

Definition write (bs b : Buffer) : outcome string (nat * Buffer) :=
  if (length bs <=? length b)%nat
  then Ok (length bs, bs ++ skipn (length bs) b)
  else Err "RangeError: encoding overruns Buffer"%string.

Definition u64_body (v : value) : option Buffer :=
  match v with
  | VU64 n => if (0 <=? n) && (n <? 2 ^ 64) then Some (le_bytes 8 n) else None
  | VBytes _ => None
  end.

Definition bytes_body (v : value) : option Buffer :=
  match v with
  | VBytes bs => Some (le_bytes 4 (Z.of_nat (length bs)) ++ bs)
  | VU64 _ => None
  end.

Definition u64_layout : Layout value := {|
  layout_encode v b :=
    match u64_body v with
    | Some bs => write bs b
    | None => Err "TypeError: not a u64"%string
    end;
  layout_decode b :=
    if (length b <? 8)%nat then Err "RangeError: out of range"%string
    else Ok (VU64 (le_value (firstn 8 b)))
|}.

Definition bytes_layout : Layout value := {|
  layout_encode v b :=
    match bytes_body v with
    | Some bs => write bs b
    | None => Err "TypeError: not a byte string"%string
    end;
  layout_decode b :=
    if (length b <? 4)%nat then Err "RangeError: out of range"%string
    else
      let n := Z.to_nat (le_value (firstn 4 b)) in
      if (length b <? 4 + n)%nat then Err "RangeError: out of range"%string
      else Ok (VBytes (firstn n (skipn 4 b)))
|}.

Definition typeDefLayout (acc : IdlTypeDef ty) (tys : option (list (IdlTypeDef ty)))
  : outcome string (Layout value) :=
  match type acc with
  | TyU64 => Ok u64_layout
  | TyBytes => Ok bytes_layout
  end.

Definition counter : IdlTypeDef ty := {| name := "counter"; type := TyU64 |}.
Definition blob : IdlTypeDef ty := {| name := "blob"; type := TyBytes |}.

Definition idl_legacy : Idl ty :=
  {| accounts := Some [counter; blob]; types := None; layoutVersion := None |}.
Definition idl_versioned : Idl ty :=
  {| accounts := Some [counter; blob]; types := None; layoutVersion := Some "0.1.0"%string |}.
Definition idl_empty : Idl ty :=
  {| accounts := Some []; types := None; layoutVersion := None |}.
Definition idl_no_accounts : Idl ty :=
  {| accounts := None; types := None; layoutVersion := None |}.

(** The coder a schema constructs, [None] when construction throws. *)
Definition coder_of (i : Idl ty) : option (BorshAccountsCoder.t value ty) :=
  match BorshAccountsCoder.constructor typeDefLayout i with
  | Ok c => Some c
  | Err _ => None
  end.

Definition registry (layouts : list (string * Layout value)) : gmap string (Layout value) :=
  BorshAccountsCoder.Map_of layouts.

Definition legacy_coder : BorshAccountsCoder.t value ty :=
  {| BorshAccountsCoder.accountLayouts := registry [("counter"%string, u64_layout); ("blob"%string, bytes_layout)];
     BorshAccountsCoder.idl := Some idl_legacy;
     BorshAccountsCoder.header := Some (BorshAccountHeader.new idl_legacy) |}.

Definition versioned_coder : BorshAccountsCoder.t value ty :=
  {| BorshAccountsCoder.accountLayouts := registry [("counter"%string, u64_layout); ("blob"%string, bytes_layout)];
     BorshAccountsCoder.idl := Some idl_versioned;
     BorshAccountsCoder.header := Some (BorshAccountHeader.new idl_versioned) |}.

Definition empty_coder : BorshAccountsCoder.t value ty :=
  {| BorshAccountsCoder.accountLayouts := ∅;
     BorshAccountsCoder.idl := Some idl_empty;
     BorshAccountsCoder.header := Some (BorshAccountHeader.new idl_empty) |}.

(** A byte string whose body (4 + 997 bytes) is one byte too long for the
    scratch buffer of [encode]. *)
Definition big_value : value := VBytes (repeat x00 997).

End Demo.

(** ** Schemas for the edge cases *)

Module DemoEdge.

(** Two definitions named ["counter"]: first a byte string, then a u64. *)
Definition counter_as_bytes : IdlTypeDef Demo.ty := {| name := "counter"; type := Demo.TyBytes |}.

Definition idl_duplicate : Idl Demo.ty :=
  {| accounts := Some [counter_as_bytes; Demo.blob; Demo.counter];
     types := None;
     layoutVersion := None |}.

(** A Layout builder that cannot resolve byte strings. *)
Definition typeDefLayout_no_bytes (acc : IdlTypeDef Demo.ty)
           (tys : option (list (IdlTypeDef Demo.ty)))
  : outcome string (Layout Demo.value) :=
  match type acc with
  | Demo.TyU64 => Ok Demo.u64_layout
  | Demo.TyBytes => Err "IdlError: Type not found"%string
  end.

Definition duplicate_coder : BorshAccountsCoder.t Demo.value Demo.ty :=
  {| BorshAccountsCoder.accountLayouts :=
       Demo.registry [("counter"%string, Demo.bytes_layout);
                      ("blob"%string, Demo.bytes_layout);
                      ("counter"%string, Demo.u64_layout)];
     BorshAccountsCoder.idl := Some idl_duplicate;
     BorshAccountsCoder.header := Some (BorshAccountHeader.new idl_duplicate) |}.

(** The coder of [Demo.idl_no_accounts]: no registry entry, no header. *)
Definition no_accounts_coder : BorshAccountsCoder.t Demo.value Demo.ty :=
  {| BorshAccountsCoder.accountLayouts := ∅;
     BorshAccountsCoder.idl := None;
     BorshAccountsCoder.header := None |}.

End DemoEdge.

(** * Properties *)

Local Open Scope string_scope.
Local Open Scope list_scope.

(** ** The models of the packages agree with known answers *)

Example sha256_empty :
  hex (SHA256.digest "") =
  [0xe3;0xb0;0xc4;0x42;0x98;0xfc;0x1c;0x14;0x9a;0xfb;0xf4;0xc8;0x99;0x6f;0xb9;0x24;
   0x27;0xae;0x41;0xe4;0x64;0x9b;0x93;0x4c;0xa4;0x95;0x99;0x1b;0x78;0x52;0xb8;0x55].
Proof. vm_compute. reflexivity. Qed.

Example sha256_abc :
  hex (SHA256.digest "abc") =
  [0xba;0x78;0x16;0xbf;0x8f;0x01;0xcf;0xea;0x41;0x41;0x40;0xde;0x5d;0xae;0x22;0x23;
   0xb0;0x03;0x61;0xa3;0x96;0x17;0x7a;0x9c;0xb4;0x10;0xff;0x61;0xf2;0x00;0x15;0xad].
Proof. vm_compute. reflexivity. Qed.

Example sha256_two_blocks :
  hex (SHA256.digest "abcdbcdecdefdefgefghfghighijhijkijkljklmklmnlmnomnopnopq") =
  [0x24;0x8d;0x6a;0x61;0xd2;0x06;0x38;0xb8;0xe5;0xc0;0x26;0x93;0x0c;0x3e;0x60;0x39;
   0xa3;0x3c;0xe4;0x59;0x64;0xff;0x21;0x67;0xf6;0xec;0xed;0xd4;0x19;0xdb;0x06;0xc1].
Proof. vm_compute. reflexivity. Qed.

Example sha256_account_counter :
  hex (firstn 8 (SHA256.digest "account:Counter")) = [255; 176; 4; 245; 188; 253; 124; 25].
Proof. vm_compute. reflexivity. Qed.

Example base58_known_answers :
  map (fun l => Base58.encode (unhex l))
      [[]; [0]; [0; 0; 1]; [58]; [104; 101; 108; 108; 111; 32; 119; 111; 114; 108; 100];
       [255; 176; 4; 245; 188; 253; 124; 25]; [0; 0; 255; 255]] =
  [""; "1"; "112"; "21"; "StV1DL6CwTryKyV"; "jmVQbGxuVYt"; "11LUv"].
Proof. vm_compute. reflexivity. Qed.

Example camelCase_known_answers :
  map (fun s => Camelcase.camelCase s true)
      ["counter"; "my_account"; "foo-bar"; " foo bar "; "--foo.bar"; "fooBAR";
       "XMLHttpRequest"; "foo2bar"; "a"; ""] =
  ["Counter"; "MyAccount"; "FooBar"; "FooBar"; "FooBar"; "FooBar";
   "XmlHttpRequest"; "Foo2Bar"; "A"; ""].
Proof. vm_compute. reflexivity. Qed.

Example constructs_legacy : Demo.coder_of Demo.idl_legacy = Some Demo.legacy_coder.
Proof. reflexivity. Qed.

Example constructs_versioned : Demo.coder_of Demo.idl_versioned = Some Demo.versioned_coder.
Proof. reflexivity. Qed.

Example constructs_empty : Demo.coder_of Demo.idl_empty = Some Demo.empty_coder.
Proof. reflexivity. Qed.

(** A schema without an [accounts] member: the constructor returns before
    it sets [this.header], and [decode] and [memcmp] throw a [TypeError]. *)
Example no_accounts_member :
  exists c,
    BorshAccountsCoder.constructor Demo.typeDefLayout Demo.idl_no_accounts = Ok c
    /\ BorshAccountsCoder.header c = None
    /\ BorshAccountsCoder.decode c "counter" [] = Err TypeError
    /\ BorshAccountsCoder.memcmp c "counter" = Err TypeError.
Proof. eexists. repeat split; reflexivity. Qed.

(** The scenario of the specification: a versioned schema and a counter. *)
Example scenario_versioned_counter :
  BorshAccountsCoder.encode Demo.versioned_coder "counter" (Demo.VU64 42) =
    Ok (unhex ([0; 0] ++ [255; 176; 4; 245] ++ [0; 0] ++ [42; 0; 0; 0; 0; 0; 0; 0]))
  /\ BorshAccountsCoder.decode Demo.versioned_coder "counter"
       (unhex ([0; 0] ++ [255; 176; 4; 245] ++ [0; 0] ++ [42; 0; 0; 0; 0; 0; 0; 0]))
     = Ok (Demo.VU64 42).
Proof. split; vm_compute; reflexivity. Qed.

Example scenario_legacy_header :
  hex (BorshAccountHeader.encode (BorshAccountHeader.new Demo.idl_legacy) "counter" None)
  = [255; 176; 4; 245; 188; 253; 124; 25].
Proof. vm_compute. reflexivity. Qed.

(** ** Buffers *)

Lemma Z_of_byte_inj (x y : byte) : Z_of_byte x = Z_of_byte y -> x = y.
Proof.
  unfold Z_of_byte. intros H. apply N2Z.inj in H.
  pose proof (Byte.of_to_N x) as Hx. pose proof (Byte.of_to_N y) as Hy.
  rewrite H in Hx. congruence.
Qed.

Lemma Buffer_compare_refl (a : Buffer) : Buffer_compare a a = 0.
Proof.
  induction a as [|x a IH]; simpl; [reflexivity|].
  rewrite Z.ltb_irrefl. exact IH.
Qed.

Lemma Buffer_compare_eq (a b : Buffer) : Buffer_compare a b = 0 <-> a = b.
Proof.
  split; [|intros ->; apply Buffer_compare_refl].
  revert b. induction a as [|x a IH]; intros [|y b]; simpl; try discriminate; [reflexivity|].
  destruct (Z.ltb_spec (Z_of_byte x) (Z_of_byte y)); [discriminate|].
  destruct (Z.ltb_spec (Z_of_byte y) (Z_of_byte x)); [discriminate|].
  intros H1. f_equal; [apply Z_of_byte_inj; lia | apply IH, H1].
Qed.

Lemma slice_0 (b : Buffer) (n : nat) : slice b 0 n = firstn n b.
Proof. unfold slice. rewrite Nat.sub_0_r. reflexivity. Qed.

Lemma slice_0_app (a b : Buffer) : slice (a ++ b) 0 (length a) = a.
Proof. rewrite slice_0. apply take_app_length. Qed.

Lemma length_Buffer_alloc (n : nat) : length (Buffer_alloc n) = n.
Proof. apply repeat_length. Qed.

(** ** The digest has 32 bytes *)

Lemma length_word_bytes (w : Z) : length (SHA256.word_bytes w) = 4%nat.
Proof. reflexivity. Qed.

Lemma length_output (h : SHA256.words8) : length (SHA256.output h) = 32%nat.
Proof. unfold SHA256.output. rewrite !length_app, !length_word_bytes. reflexivity. Qed.

Lemma length_digest (message : string) : length (SHA256.digest message) = 32%nat.
Proof. apply length_output. Qed.

(** ** The loop of preserveCamelCase ends within its bound *)

Lemma length_insert_dash (s : list ascii) (i : nat) :
  (i <= length s)%nat -> length (Camelcase.insert_dash s i) = S (length s).
Proof.
  intros Hi. unfold Camelcase.insert_dash.
  rewrite length_app, length_take. simpl. rewrite length_drop. lia.
Qed.

Lemma pcc_body_decreases (st : Camelcase.pcc_state) (character : ascii) :
  (Camelcase.pcc_i st < length (Camelcase.pcc_string st))%nat ->
  (pcc_measure (Camelcase.pcc_body st character) < pcc_measure st)%nat.
Proof.
  intros Hi. unfold Camelcase.pcc_body, pcc_measure.
  destruct st as [s i lower upper lastlast]; simpl in *.
  destruct (lower && Camelcase.is_letter character
            && Ascii.eqb (Camelcase.toUpperCase character) character); simpl.
  { rewrite length_insert_dash by lia. destruct upper, lastlast; simpl; lia. }
  destruct (upper && lastlast && Camelcase.is_letter character
            && Ascii.eqb (Camelcase.toLowerCase character) character) eqn:E; simpl.
  { rewrite length_insert_dash by lia.
    apply andb_prop in E as [E _]. apply andb_prop in E as [E _]. rewrite E. lia. }
  match goal with |- context [if ?b then 1%nat else 0%nat] =>
    destruct b end; destruct (upper && lastlast); simpl; lia.
Qed.

Lemma pcc_loop_exits (fuel : nat) (st : Camelcase.pcc_state) :
  (pcc_measure st <= fuel)%nat ->
  nth_error (Camelcase.pcc_string (Camelcase.pcc_loop fuel st))
            (Camelcase.pcc_i (Camelcase.pcc_loop fuel st)) = None.
Proof.
  revert st. induction fuel as [|fuel IH]; intros st Hm; simpl.
  - apply nth_error_None. unfold pcc_measure in Hm. lia.
  - destruct (nth_error (Camelcase.pcc_string st) (Camelcase.pcc_i st)) as [c|] eqn:E;
      [|exact E].
    apply IH.
    assert (Camelcase.pcc_i st < length (Camelcase.pcc_string st))%nat
      by (apply nth_error_Some; congruence).
    pose proof (pcc_body_decreases st c). lia.
Qed.

(** [preserveCamelCase] returns the string its loop ends with: the bound of
    twice the length is never what stops it. *)
Lemma preserveCamelCase_completes (s : list ascii) :
  let final := Camelcase.pcc_loop (2 * length s) (Camelcase.PccState s 0 false false false) in
  Camelcase.preserveCamelCase s = Camelcase.pcc_string final
  /\ (length (Camelcase.pcc_string final) <= Camelcase.pcc_i final)%nat.
Proof.
  simpl. split; [reflexivity|].
  apply nth_error_None, pcc_loop_exits. unfold pcc_measure. simpl. lia.
Qed.

(** ** BorshAccountHeader *)

Section HeaderProperties.
Context {IdlTypeDefTy : Type}.
Implicit Types (h : BorshAccountHeader.t IdlTypeDefTy) (i : Idl IdlTypeDefTy).

Lemma discriminatorSize_cases h :
  BorshAccountHeader.discriminatorSize h = (if versioned (BorshAccountHeader._idl h) then 4 else 8)%nat.
Proof.
  unfold BorshAccountHeader.discriminatorSize, versioned.
  destruct (layoutVersion _); reflexivity.
Qed.

Lemma length_discriminator h (name : string) (nameSpace : option string) :
  length (BorshAccountHeader.discriminator h name nameSpace)
  = BorshAccountHeader.discriminatorSize h.
Proof.
  unfold BorshAccountHeader.discriminator. rewrite slice_0, length_take, length_digest.
  rewrite discriminatorSize_cases. destruct (versioned _); reflexivity.
Qed.

Lemma length_header h (accountName : string) (nameSpace : option string) :
  length (BorshAccountHeader.encode h accountName nameSpace) = 8%nat.
Proof.
  pose proof (length_discriminator h accountName nameSpace) as Hd.
  unfold BorshAccountHeader.encode.
  unfold BorshAccountHeader.discriminatorSize in Hd.
  destruct (layoutVersion _); [|exact Hd].
  rewrite !length_app, Hd. reflexivity.
Qed.

(** The discriminator read back from a record that starts with the header
    of a type is the discriminator of that type. *)
Lemma parseDiscriminator_header h (accountName : string) (nameSpace : option string)
      (body : Buffer) :
  BorshAccountHeader.parseDiscriminator h
    (BorshAccountHeader.encode h accountName nameSpace ++ body)
  = BorshAccountHeader.discriminator h accountName nameSpace.
Proof.
  pose proof (length_discriminator h accountName nameSpace) as Hd.
  unfold BorshAccountHeader.parseDiscriminator, BorshAccountHeader.encode.
  unfold BorshAccountHeader.discriminatorSize in Hd.
  destruct (layoutVersion _).
  - unfold slice. change (6 - 2)%nat with 4%nat.
    change (skipn 2 (([x00] ++ [x00] ++ ?d ++ ?z) ++ body)) with ((d ++ z) ++ body).
    rewrite <- app_assoc. apply take_app_length'. symmetry. exact Hd.
  - rewrite slice_0. apply take_app_length'. symmetry. exact Hd.
Qed.

Lemma skipn_header h (accountName : string) (nameSpace : option string) (body : Buffer) :
  slice_from (BorshAccountHeader.encode h accountName nameSpace ++ body)
             BorshAccountHeader.size = body.
Proof.
  unfold slice_from, BorshAccountHeader.size, ACCOUNT_HEADER_SIZE.
  rewrite <- (length_header h accountName nameSpace). apply drop_app_length.
Qed.

End HeaderProperties.

(** C2. The encoded header is exactly 8 bytes for every type name: without
    a format version it is the 8-byte discriminator, with one it is two
    zero bytes, the 4-byte discriminator and two zero bytes; the header
    size does not depend on the format. *)
Theorem header_encode_format {IdlTypeDefTy : Type} (h : BorshAccountHeader.t IdlTypeDefTy)
        (typeName : string) (namespaceOverride : option string) :
  let header := BorshAccountHeader.encode h typeName namespaceOverride in
  let disc := BorshAccountHeader.discriminator h typeName namespaceOverride in
  length header = 8%nat
  /\ length header = BorshAccountHeader.size
  /\ match layoutVersion (BorshAccountHeader._idl h) with
     | None => header = disc /\ length disc = 8%nat
     | Some _ => header = [x00; x00] ++ disc ++ [x00; x00] /\ length disc = 4%nat
     end.
Proof.
  cbv zeta. split; [apply length_header|]. split; [apply length_header|].
  pose proof (length_discriminator h typeName namespaceOverride) as Hd.
  unfold BorshAccountHeader.encode, BorshAccountHeader.discriminatorSize in *.
  destruct (layoutVersion _); split; solve [reflexivity | exact Hd].
Qed.

(** C4 (as the code has it). [parseDiscriminator] checks no length and
    never fails: it returns the bytes of the input that lie in [0,8)
    (legacy) or [2,6) (versioned), so on an input that ends before the
    discriminator does, the result is shorter than a discriminator. *)
Theorem parseDiscriminator_clamps {IdlTypeDefTy : Type} (h : BorshAccountHeader.t IdlTypeDefTy)
        (recordBytes : Buffer) :
  let parsed := BorshAccountHeader.parseDiscriminator h recordBytes in
  match layoutVersion (BorshAccountHeader._idl h) with
  | None => parsed = firstn 8 recordBytes /\ length parsed = Nat.min 8 (length recordBytes)
  | Some _ =>
      parsed = firstn 4 (skipn 2 recordBytes)
      /\ length parsed = Nat.min 4 (length recordBytes - 2)
  end
  /\ ((length recordBytes < BorshAccountHeader.discriminatorOffset h
                            + BorshAccountHeader.discriminatorSize h)%nat ->
      (length parsed < BorshAccountHeader.discriminatorSize h)%nat).
Proof.
  cbv zeta.
  unfold BorshAccountHeader.parseDiscriminator, BorshAccountHeader.discriminatorOffset,
    BorshAccountHeader.discriminatorSize, slice.
  destruct (layoutVersion _); simpl.
  - rewrite length_take, length_drop.
    unfold ACCOUNT_DISCRIMINATOR_SIZE. repeat split; try reflexivity; lia.
  - change (skipn 0 recordBytes) with recordBytes.
    rewrite length_take. unfold DEPRECATED_ACCOUNT_DISCRIMINATOR_SIZE.
    repeat split; try reflexivity; lia.
Qed.

(** A 3-byte input to [parseDiscriminator] comes back whole: nothing
    signals that it is shorter than a header. *)
Lemma parseDiscriminator_short_input_returns :
  let h := BorshAccountHeader.new Demo.idl_legacy in
  let short := [x01; x02; x03] in
  (length short < 8)%nat
  /\ BorshAccountHeader.parseDiscriminator h short = short
  /\ BorshAccountHeader.parseDiscriminator
       (BorshAccountHeader.new Demo.idl_versioned) short = [x03].
Proof. cbv zeta. split; [simpl; lia|]. split; reflexivity. Qed.

Lemma parseDiscriminator_clamps_witness :
  let h := BorshAccountHeader.new Demo.idl_legacy in
  (length [x01; x02; x03] < BorshAccountHeader.discriminatorOffset h
                            + BorshAccountHeader.discriminatorSize h)%nat
  /\ (length (BorshAccountHeader.parseDiscriminator h [x01; x02; x03])
      < BorshAccountHeader.discriminatorSize h)%nat.
Proof.
  cbv zeta. split.
  - vm_compute. lia.
  - apply (proj2 (parseDiscriminator_clamps (BorshAccountHeader.new Demo.idl_legacy)
                                            [x01; x02; x03])).
    vm_compute. lia.
Defined.

(** C6. The discriminator is the SHA-256 digest of
    ["<namespace>:<PascalCase(typeName)>"], the namespace defaulting to
    ["account"], cut to 8 bytes (legacy) or 4 bytes (versioned); it depends
    on nothing but the format, the namespace and the type name, so any two
    header codecs of the same format compute the same bytes. *)
Theorem discriminator_is_truncated_digest {IdlTypeDefTy : Type}
        (h : BorshAccountHeader.t IdlTypeDefTy)
        (typeName : string) (namespaceOverride : option string) :
  BorshAccountHeader.discriminator h typeName namespaceOverride
  = spec_discriminator (versioned (BorshAccountHeader._idl h)) typeName namespaceOverride
  /\ length (BorshAccountHeader.discriminator h typeName namespaceOverride)
     = (if versioned (BorshAccountHeader._idl h) then 4 else 8)%nat
  /\ BorshAccountHeader.discriminator h typeName None
     = BorshAccountHeader.discriminator h typeName (Some "account")
  /\ forall h' : BorshAccountHeader.t IdlTypeDefTy,
       versioned (BorshAccountHeader._idl h') = versioned (BorshAccountHeader._idl h) ->
       BorshAccountHeader.discriminator h' typeName namespaceOverride
       = BorshAccountHeader.discriminator h typeName namespaceOverride.
Proof.
  assert (Hspec : forall (k : BorshAccountHeader.t IdlTypeDefTy) ns,
             BorshAccountHeader.discriminator k typeName ns
             = spec_discriminator (versioned (BorshAccountHeader._idl k)) typeName ns).
  { intros k ns. unfold BorshAccountHeader.discriminator, spec_discriminator.
    rewrite slice_0, discriminatorSize_cases. destruct ns; reflexivity. }
  split; [apply Hspec|].
  split; [rewrite length_discriminator; apply discriminatorSize_cases|].
  split; [reflexivity|].
  intros h' Hv. rewrite !Hspec, Hv. reflexivity.
Qed.

Lemma discriminator_is_truncated_digest_witness :
  let h := BorshAccountHeader.new Demo.idl_versioned in
  let h' := BorshAccountHeader.new
              {| accounts := None; types := Some [Demo.blob]; layoutVersion := Some "2" |} in
  versioned (BorshAccountHeader._idl h') = versioned (BorshAccountHeader._idl h)
  /\ BorshAccountHeader.discriminator h' "counter" None
     = BorshAccountHeader.discriminator h "counter" None.
Proof.
  cbv zeta. split; [reflexivity|].
  apply (proj2 (proj2 (proj2 (discriminator_is_truncated_digest
                                (BorshAccountHeader.new Demo.idl_versioned) "counter" None)))).
  reflexivity.
Defined.

(** C9. The type names ["myAccount"] and ["MyAccount"] have the same
    discriminator, because both are rewritten to ["MyAccount"] before
    hashing. *)
Theorem discriminator_myAccount_MyAccount {IdlTypeDefTy : Type}
        (h : BorshAccountHeader.t IdlTypeDefTy) (nameSpace : option string) :
  Camelcase.camelCase "myAccount" true = "MyAccount"
  /\ Camelcase.camelCase "MyAccount" true = "MyAccount"
  /\ BorshAccountHeader.discriminator h "myAccount" nameSpace
     = BorshAccountHeader.discriminator h "MyAccount" nameSpace.
Proof.
  assert (H1 : Camelcase.camelCase "myAccount" true = "MyAccount") by (vm_compute; reflexivity).
  assert (H2 : Camelcase.camelCase "MyAccount" true = "MyAccount") by (vm_compute; reflexivity).
  split; [exact H1|]. split; [exact H2|].
  unfold BorshAccountHeader.discriminator. rewrite H1, H2. reflexivity.
Qed.

(** ** BorshAccountsCoder *)

Section CoderProperties.
Context {Value IdlTypeDefTy : Type}.
Context (typeDefLayout :
           IdlTypeDef IdlTypeDefTy -> option (list (IdlTypeDef IdlTypeDefTy)) ->
           outcome string (Layout Value)).
Implicit Types (c : BorshAccountsCoder.t Value IdlTypeDefTy) (i : Idl IdlTypeDefTy).
Implicit Types (L : Layout Value).

(** A schema without an [accounts] member constructs a coder with an empty
    registry and no header codec. *)
Lemma constructor_no_accounts i :
  accounts i = None ->
  BorshAccountsCoder.constructor typeDefLayout i
  = Ok {| BorshAccountsCoder.accountLayouts := ∅;
          BorshAccountsCoder.idl := None;
          BorshAccountsCoder.header := None |}.
Proof. intros H. unfold BorshAccountsCoder.constructor. rewrite H. reflexivity. Qed.

(** A schema with an [accounts] member constructs a coder whose header
    codec is the one of the schema. *)
Lemma constructor_header i c accs :
  BorshAccountsCoder.constructor typeDefLayout i = Ok c ->
  accounts i = Some accs ->
  BorshAccountsCoder.header c = Some (BorshAccountHeader.new i)
  /\ exists layouts,
      BorshAccountsCoder.account_layouts typeDefLayout accs (types i) = Ok layouts
      /\ BorshAccountsCoder.accountLayouts c = BorshAccountsCoder.Map_of layouts.
Proof.
  unfold BorshAccountsCoder.constructor. intros Hc Ha. rewrite Ha in Hc.
  destruct (BorshAccountsCoder.account_layouts typeDefLayout accs (types i))
    as [layouts|e]; simpl in Hc; [|discriminate].
  injection Hc as <-. simpl. eauto.
Qed.

Lemma constructor_empty_accounts i :
  accounts i = Some [] ->
  BorshAccountsCoder.constructor typeDefLayout i
  = Ok {| BorshAccountsCoder.accountLayouts := ∅;
          BorshAccountsCoder.idl := Some i;
          BorshAccountsCoder.header := Some (BorshAccountHeader.new i) |}.
Proof. intros H. unfold BorshAccountsCoder.constructor. rewrite H. reflexivity. Qed.

(** A registered name implies an [accounts] member, hence a header codec. *)
Lemma constructor_registered i c (T : string) L :
  BorshAccountsCoder.constructor typeDefLayout i = Ok c ->
  BorshAccountsCoder.accountLayouts c !! T = Some L ->
  BorshAccountsCoder.header c = Some (BorshAccountHeader.new i).
Proof.
  intros Hc HT. destruct (accounts i) as [accs|] eqn:Ha.
  - apply (constructor_header i c accs Hc Ha).
  - rewrite (constructor_no_accounts i Ha) in Hc. injection Hc as <-.
    simpl in HT. rewrite lookup_empty in HT. discriminate.
Qed.

Lemma decodeUnchecked_unfold c (T : string) (ix : Buffer) :
  BorshAccountsCoder.decodeUnchecked c T ix
  = match BorshAccountsCoder.accountLayouts c !! T with
    | Some L => rethrow LayoutError (layout_decode L (skipn 8 ix))
    | None => Err (UnknownAccount T)
    end.
Proof. reflexivity. Qed.

(** What [encode] returns when the Layout has written [len] bytes. *)
Lemma encode_written c h (T : string) L (v : Value) (len : nat) (written : Buffer) :
  BorshAccountsCoder.header c = Some h ->
  BorshAccountsCoder.accountLayouts c !! T = Some L ->
  layout_encode L v (Buffer_alloc 1000) = Ok (len, written) ->
  BorshAccountsCoder.encode c T v
  = Ok (BorshAccountHeader.encode h T None ++ slice written 0 len).
Proof.
  intros Hh HT He. unfold BorshAccountsCoder.encode, BorshAccountsCoder.the_header.
  rewrite HT, He, Hh. reflexivity.
Qed.

Lemma encode_overrun c (T : string) L (v : Value) (msg : string) :
  BorshAccountsCoder.accountLayouts c !! T = Some L ->
  layout_encode L v (Buffer_alloc 1000) = Err msg ->
  BorshAccountsCoder.encode c T v = Err (LayoutError msg).
Proof.
  intros HT He. unfold BorshAccountsCoder.encode. rewrite HT, He. reflexivity.
Qed.

(** [decode] with a header codec: the comparison of the two discriminators
    decides between the mismatch error and [decodeUnchecked]. *)
Lemma decode_match c h (T : string) (data : Buffer) :
  BorshAccountsCoder.header c = Some h ->
  BorshAccountHeader.parseDiscriminator h data = BorshAccountHeader.discriminator h T None ->
  BorshAccountsCoder.decode c T data = BorshAccountsCoder.decodeUnchecked c T data.
Proof.
  intros Hh Hd. unfold BorshAccountsCoder.decode, BorshAccountsCoder.the_header.
  rewrite Hh. simpl. rewrite Hd, Buffer_compare_refl. reflexivity.
Qed.

Lemma decode_mismatch c h (T : string) (data : Buffer) :
  BorshAccountsCoder.header c = Some h ->
  BorshAccountHeader.parseDiscriminator h data <> BorshAccountHeader.discriminator h T None ->
  BorshAccountsCoder.decode c T data = Err InvalidAccountDiscriminator.
Proof.
  intros Hh Hd. unfold BorshAccountsCoder.decode, BorshAccountsCoder.the_header.
  rewrite Hh. simpl.
  destruct (Z.eqb_spec
              (Buffer_compare (BorshAccountHeader.discriminator h T None)
                              (BorshAccountHeader.parseDiscriminator h data)) 0) as [E|E];
    [|reflexivity].
  apply Buffer_compare_eq in E. congruence.
Qed.

(** C1 (as the code has it). For a registered type [T] and a value [v]
    that the Layout of [T] encodes into the 1000-byte scratch buffer and
    decodes back from the bytes it wrote, [decode(T, encode(T, v))]
    returns [v]. *)
Theorem decode_encode_roundtrip i c (T : string) L (v : Value)
        (len : nat) (written : Buffer) :
  BorshAccountsCoder.constructor typeDefLayout i = Ok c ->
  BorshAccountsCoder.accountLayouts c !! T = Some L ->
  layout_encode L v (Buffer_alloc 1000) = Ok (len, written) ->
  layout_decode L (slice written 0 len) = Ok v ->
  exists record,
    BorshAccountsCoder.encode c T v = Ok record
    /\ BorshAccountsCoder.decode c T record = Ok v.
Proof.
  intros Hc HT He Hd.
  pose proof (constructor_registered i c T L Hc HT) as Hh.
  eexists. split; [exact (encode_written c _ T L v len written Hh HT He)|].
  rewrite (decode_match c _ T _ Hh) by apply parseDiscriminator_header.
  unfold BorshAccountsCoder.decodeUnchecked.
  rewrite HT, skipn_header, Hd. reflexivity.
Qed.

(** C3 (as the code has it). For a type name that is not registered,
    [decode] fails on every input: the discriminator check runs first, so
    the error is the mismatch error unless the input carries the
    discriminator of that name, and only then the unknown-type error. *)
Theorem decode_unregistered i c accs (T : string) (data : Buffer) :
  BorshAccountsCoder.constructor typeDefLayout i = Ok c ->
  accounts i = Some accs ->
  BorshAccountsCoder.accountLayouts c !! T = None ->
  let h := BorshAccountHeader.new i in
  (BorshAccountHeader.parseDiscriminator h data = BorshAccountHeader.discriminator h T None ->
   BorshAccountsCoder.decode c T data = Err (UnknownAccount T))
  /\ (BorshAccountHeader.parseDiscriminator h data <> BorshAccountHeader.discriminator h T None ->
      BorshAccountsCoder.decode c T data = Err InvalidAccountDiscriminator)
  /\ exists e, BorshAccountsCoder.decode c T data = Err e.
Proof.
  intros Hc Ha HT h.
  destruct (constructor_header i c accs Hc Ha) as [Hh _]. fold h in Hh.
  assert (H1 : BorshAccountHeader.parseDiscriminator h data
               = BorshAccountHeader.discriminator h T None ->
               BorshAccountsCoder.decode c T data = Err (UnknownAccount T)).
  { intros Hd. rewrite (decode_match c h T data Hh Hd), decodeUnchecked_unfold, HT.
    reflexivity. }
  assert (H2 := decode_mismatch c h T data Hh).
  split; [exact H1|]. split; [exact H2|].
  destruct (Z.eqb_spec
              (Buffer_compare (BorshAccountHeader.parseDiscriminator h data)
                              (BorshAccountHeader.discriminator h T None)) 0) as [E|E].
  - apply Buffer_compare_eq in E. eauto.
  - eexists. apply H2. intros E'. apply E, Buffer_compare_eq, E'.
Qed.

(** C7. [decodeUnchecked] looks at no discriminator: for a registered
    type it drops the first 8 bytes and hands the rest to the Layout of
    that type, for an unregistered one it fails with the unknown-type
    error; applied to a record encoded for any other type it passes that
    record's body to the Layout and never reports a discriminator
    mismatch. *)
Theorem decodeUnchecked_skips_check c (T : string) (data : Buffer) :
  BorshAccountsCoder.decodeUnchecked c T data
  = match BorshAccountsCoder.accountLayouts c !! T with
    | Some L => rethrow LayoutError (layout_decode L (skipn 8 data))
    | None => Err (UnknownAccount T)
    end
  /\ BorshAccountsCoder.decodeUnchecked c T data <> Err InvalidAccountDiscriminator
  /\ forall (Other : string) (v : Value) (record : Buffer),
       BorshAccountsCoder.encode c Other v = Ok record ->
       BorshAccountsCoder.decodeUnchecked c T record <> Err InvalidAccountDiscriminator
       /\ exists h body,
            BorshAccountsCoder.header c = Some h
            /\ record = BorshAccountHeader.encode h Other None ++ body
            /\ forall L, BorshAccountsCoder.accountLayouts c !! T = Some L ->
                 BorshAccountsCoder.decodeUnchecked c T record
                 = rethrow LayoutError (layout_decode L body).
Proof.
  assert (Hno : forall ix,
             BorshAccountsCoder.decodeUnchecked c T ix <> Err InvalidAccountDiscriminator).
  { intros ix. rewrite decodeUnchecked_unfold.
    destruct (BorshAccountsCoder.accountLayouts c !! T) as [L|]; [|discriminate].
    destruct (layout_decode L (skipn 8 ix)); discriminate. }
  split; [apply decodeUnchecked_unfold|]. split; [apply Hno|].
  intros Other v record He. split; [apply Hno|].
  unfold BorshAccountsCoder.encode, BorshAccountsCoder.the_header in He.
  destruct (BorshAccountsCoder.accountLayouts c !! Other) as [LO|]; [|discriminate].
  destruct (layout_encode LO v (Buffer_alloc 1000)) as [[len written]|]; [|discriminate].
  simpl in He.
  destruct (BorshAccountsCoder.header c) as [h|]; [|discriminate].
  simpl in He. injection He as <-.
  exists h, (slice written 0 len). split; [reflexivity|]. split; [reflexivity|].
  intros L HT. unfold BorshAccountsCoder.decodeUnchecked.
  rewrite HT, skipn_header. reflexivity.
Qed.

End CoderProperties.

Section RegistryProperties.
Context {Value IdlTypeDefTy : Type}.
Context (typeDefLayout :
           IdlTypeDef IdlTypeDefTy -> option (list (IdlTypeDef IdlTypeDefTy)) ->
           outcome string (Layout Value)).
Implicit Types (c : BorshAccountsCoder.t Value IdlTypeDefTy) (i : Idl IdlTypeDefTy).
Implicit Types (L : Layout Value).

Lemma memcmp_with_header c h (T : string) :
  BorshAccountsCoder.header c = Some h ->
  BorshAccountsCoder.memcmp c T
  = Ok {| offset := BorshAccountHeader.discriminatorOffset h;
          bytes := Base58.encode (BorshAccountHeader.discriminator h T None) |}.
Proof.
  intros Hh. unfold BorshAccountsCoder.memcmp, BorshAccountsCoder.the_header.
  rewrite Hh. reflexivity.
Qed.

(** C5 (as the code has it). The memcmp filter builder does not look the
    type name up: on a coder built from a schema with an accounts list it
    returns, for every type name, registered or not, the descriptor whose
    offset is [discriminatorOffset()] and whose bytes are the base58
    encoding of the discriminator of that name. *)
Theorem memcmp_descriptor i c (T : string) :
  BorshAccountsCoder.constructor typeDefLayout i = Ok c ->
  is_Some (accounts i) \/ is_Some (BorshAccountsCoder.accountLayouts c !! T) ->
  BorshAccountsCoder.memcmp c T
  = Ok {| offset := BorshAccountHeader.discriminatorOffset (BorshAccountHeader.new i);
          bytes := Base58.encode
                     (BorshAccountHeader.discriminator (BorshAccountHeader.new i) T None) |}.
Proof.
  intros Hc [[accs Ha]|[L HT]]; apply memcmp_with_header.
  - apply (constructor_header typeDefLayout i c accs Hc Ha).
  - apply (constructor_registered typeDefLayout i c T L Hc HT).
Qed.

(** C8 (as the code has it). A schema that declares no account type
    constructs a coder; on it [encode] and [decodeUnchecked] report the
    unknown-type error for every type name, and [decode] fails for every
    type name and input.  When the schema has an empty accounts list,
    [decode] reports the unknown-type error exactly for the inputs that
    carry the discriminator of the name, and a discriminator mismatch for
    the others. *)
Theorem zero_account_types i :
  accounts i = None \/ accounts i = Some [] ->
  exists c,
    BorshAccountsCoder.constructor typeDefLayout i = Ok c
    /\ (forall T : string, BorshAccountsCoder.accountLayouts c !! T = None)
    /\ (forall (T : string) (v : Value),
           BorshAccountsCoder.encode c T v = Err (UnknownAccount T))
    /\ (forall (T : string) (data : Buffer),
           BorshAccountsCoder.decodeUnchecked c T data = Err (UnknownAccount T))
    /\ (forall (T : string) (data : Buffer),
           exists e, BorshAccountsCoder.decode c T data = Err e)
    /\ (accounts i = Some [] ->
        forall (T : string) (data : Buffer),
          let h := BorshAccountHeader.new i in
          BorshAccountsCoder.decode c T data
          = if (Buffer_compare (BorshAccountHeader.discriminator h T None)
                               (BorshAccountHeader.parseDiscriminator h data) =? 0)%Z
            then Err (UnknownAccount T)
            else Err InvalidAccountDiscriminator).
Proof.
  intros [Ha|Ha].
  - eexists. split; [apply (constructor_no_accounts typeDefLayout i Ha)|].
    repeat split; intros; try reflexivity; try congruence.
    eexists. reflexivity.
  - pose (c0 := {| BorshAccountsCoder.accountLayouts := ∅;
                   BorshAccountsCoder.idl := Some i;
                   BorshAccountsCoder.header := Some (BorshAccountHeader.new i) |}
                : BorshAccountsCoder.t Value IdlTypeDefTy).
    exists c0. split; [apply (constructor_empty_accounts typeDefLayout i Ha)|].
    assert (Hd : forall (T : string) (data : Buffer),
               let h := BorshAccountHeader.new i in
               BorshAccountsCoder.decode c0 T data
               = if (Buffer_compare (BorshAccountHeader.discriminator h T None)
                                    (BorshAccountHeader.parseDiscriminator h data) =? 0)%Z
                 then Err (UnknownAccount T)
                 else Err InvalidAccountDiscriminator).
    { intros T data h. unfold BorshAccountsCoder.decode. simpl.
      destruct (_ =? 0)%Z; reflexivity. }
    repeat split; intros; try reflexivity; try apply Hd.
    rewrite Hd. destruct (_ =? 0)%Z; eexists; reflexivity.
Qed.

(** C10. [encode] lets the Layout write into a scratch buffer of 1000
    bytes.  For a registered type and a value whose body the Layout
    writes (throwing when the buffer is too short for it): a body of more
    than 1000 bytes makes [encode] fail with the Layout's exception; a
    body of at most 1000 bytes gives exactly header ++ body, 8 bytes
    longer than the body. *)
Theorem encode_scratch_buffer i c (T : string) L (v : Value) (body : Buffer) :
  BorshAccountsCoder.constructor typeDefLayout i = Ok c ->
  BorshAccountsCoder.accountLayouts c !! T = Some L ->
  writes_body L v body ->
  ((1000 < length body)%nat ->
   exists msg, BorshAccountsCoder.encode c T v = Err (LayoutError msg))
  /\ ((length body <= 1000)%nat ->
      BorshAccountsCoder.encode c T v
      = Ok (BorshAccountHeader.encode (BorshAccountHeader.new i) T None ++ body)
      /\ forall record, BorshAccountsCoder.encode c T v = Ok record ->
           length record = (8 + length body)%nat).
Proof.
  intros Hc HT Hw.
  pose proof (constructor_registered typeDefLayout i c T L Hc HT) as Hh.
  specialize (Hw (Buffer_alloc 1000)). rewrite length_Buffer_alloc in Hw.
  split; intros Hlen.
  - destruct (Nat.leb_spec (length body) 1000) as [Hle|_]; [lia|].
    destruct Hw as [msg Hw]. exists msg.
    apply (encode_overrun c T L v msg HT Hw).
  - destruct (Nat.leb_spec (length body) 1000) as [_|Hgt]; [|lia].
    pose proof (encode_written c _ T L v _ _ Hh HT Hw) as He.
    rewrite slice_0_app in He. split; [exact He|].
    intros record Hr. rewrite He in Hr. injection Hr as <-.
    rewrite length_app, length_header. reflexivity.
Qed.

End RegistryProperties.

(** ** The Layouts of the concrete schema *)

Lemma Z_of_byte_of_Z (z : Z) : Z_of_byte (byte_of_Z z) = z mod 256.
Proof.
  unfold Z_of_byte, byte_of_Z.
  pose proof (Z.mod_pos_bound z 256 ltac:(lia)) as Hb.
  destruct (Byte.of_N (Z.to_N (z mod 256))) as [b|] eqn:E.
  - apply Byte.to_of_N in E. rewrite E. lia.
  - apply Byte.of_N_None_iff in E. lia.
Qed.

Lemma le_value_le_bytes_4 (n : Z) :
  0 <= n < 2 ^ 32 -> Demo.le_value (Demo.le_bytes 4 n) = n.
Proof.
  intros Hn. unfold Demo.le_bytes. simpl.
  rewrite !Z_of_byte_of_Z, !Z.shiftr_div_pow2 by lia.
  change (2 ^ (8 * Z.of_nat 0)) with 1. change (2 ^ (8 * Z.of_nat 1)) with 256.
  change (2 ^ (8 * Z.of_nat 2)) with 65536. change (2 ^ (8 * Z.of_nat 3)) with 16777216.
  change (2 ^ 32) with 4294967296 in Hn.
  rewrite Z.div_1_r.
  pose proof (Z.div_mod n 256 ltac:(lia)).
  pose proof (Z.mod_pos_bound n 256 ltac:(lia)).
  pose proof (Z.div_mod (n / 256) 256 ltac:(lia)).
  pose proof (Z.mod_pos_bound (n / 256) 256 ltac:(lia)).
  pose proof (Z.div_mod (n / 256 / 256) 256 ltac:(lia)).
  pose proof (Z.mod_pos_bound (n / 256 / 256) 256 ltac:(lia)).
  replace (n / 65536) with (n / 256 / 256) by (rewrite Z.div_div by lia; reflexivity).
  replace (n / 16777216) with (n / 256 / 256 / 256)
    by (rewrite !Z.div_div by lia; reflexivity).
  rewrite (Z.mod_small (n / 256 / 256 / 256) 256); [lia|].
  split; [repeat apply Z.div_pos; lia|].
  repeat (apply Z.div_lt_upper_bound; [lia|]). lia.
Qed.

Lemma bytes_layout_writes_body (bs : Buffer) :
  writes_body Demo.bytes_layout (Demo.VBytes bs)
              (Demo.le_bytes 4 (Z.of_nat (length bs)) ++ bs).
Proof.
  intros b.
  change (layout_encode Demo.bytes_layout (Demo.VBytes bs) b)
    with (Demo.write (Demo.le_bytes 4 (Z.of_nat (length bs)) ++ bs) b).
  unfold Demo.write.
  destruct (_ <=? _)%nat; [reflexivity|]. eexists. reflexivity.
Qed.

Lemma u64_layout_writes_body (n : Z) :
  0 <= n < 2 ^ 64 -> writes_body Demo.u64_layout (Demo.VU64 n) (Demo.le_bytes 8 n).
Proof.
  intros Hn b.
  assert (Hb : Demo.u64_body (Demo.VU64 n) = Some (Demo.le_bytes 8 n)).
  { unfold Demo.u64_body.
    destruct (Z.leb_spec 0 n); [|lia]. destruct (Z.ltb_spec n (2 ^ 64)); [|lia].
    reflexivity. }
  change (layout_encode Demo.u64_layout (Demo.VU64 n) b)
    with (match Demo.u64_body (Demo.VU64 n) with
          | Some bs => Demo.write bs b
          | None => Err "TypeError: not a u64"
          end).
  rewrite Hb. unfold Demo.write.
  destruct (_ <=? _)%nat; [reflexivity|]. eexists. reflexivity.
Qed.

Lemma bytes_layout_decode (b : Buffer) :
  layout_decode Demo.bytes_layout b
  = if (length b <? 4)%nat then Err "RangeError: out of range"
    else
      let n := Z.to_nat (Demo.le_value (firstn 4 b)) in
      if (length b <? 4 + n)%nat then Err "RangeError: out of range"
      else Ok (Demo.VBytes (firstn n (skipn 4 b))).
Proof. reflexivity. Qed.

(** The byte-string Layout round-trips on every buffer that holds the
    body: what it decodes from the bytes it wrote is the value. *)
Lemma bytes_layout_roundtrip (bs b : Buffer) :
  Z.of_nat (length bs) < 2 ^ 32 ->
  (4 + length bs <= length b)%nat ->
  exists written,
    layout_encode Demo.bytes_layout (Demo.VBytes bs) b = Ok ((4 + length bs)%nat, written)
    /\ layout_decode Demo.bytes_layout (slice written 0 (4 + length bs)) = Ok (Demo.VBytes bs).
Proof.
  intros Hlen Hfit.
  pose proof (bytes_layout_writes_body bs b) as Hw.
  set (body := Demo.le_bytes 4 (Z.of_nat (length bs)) ++ bs) in *.
  assert (Hbody : length body = (4 + length bs)%nat) by (unfold body; rewrite length_app; reflexivity).
  rewrite Hbody in Hw.
  destruct (Nat.leb_spec (4 + length bs) (length b)) as [_|]; [|lia].
  eexists. split; [exact Hw|].
  rewrite <- Hbody, slice_0_app, bytes_layout_decode. cbv zeta.
  destruct (Nat.ltb_spec (length body) 4) as [|_]; [lia|].
  assert (Hn : Z.to_nat (Demo.le_value (firstn 4 body)) = length bs).
  { unfold body. rewrite take_app_length' by reflexivity.
    rewrite le_value_le_bytes_4 by lia. lia. }
  rewrite Hn.
  destruct (Nat.ltb_spec (length body) (4 + length bs)) as [|_]; [lia|].
  unfold body. rewrite drop_app_length' by reflexivity.
  rewrite firstn_all. reflexivity.
Qed.

(** ** The properties on the concrete schema *)

(** A counter survives the round trip through the legacy coder. *)
Lemma decode_encode_roundtrip_witness :
  let c := Demo.legacy_coder in
  let v := Demo.VU64 42 in
  let written := Demo.le_bytes 8 42 ++ skipn 8 (Buffer_alloc 1000) in
  BorshAccountsCoder.constructor Demo.typeDefLayout Demo.idl_legacy = Ok c
  /\ BorshAccountsCoder.accountLayouts c !! "counter" = Some Demo.u64_layout
  /\ layout_encode Demo.u64_layout v (Buffer_alloc 1000) = Ok (8%nat, written)
  /\ layout_decode Demo.u64_layout (slice written 0 8) = Ok v
  /\ exists record,
       BorshAccountsCoder.encode c "counter" v = Ok record
       /\ BorshAccountsCoder.decode c "counter" record = Ok v.
Proof.
  cbv zeta. do 4 (split; [reflexivity|]).
  apply (decode_encode_roundtrip Demo.typeDefLayout Demo.idl_legacy
           Demo.legacy_coder "counter" Demo.u64_layout (Demo.VU64 42) 8
           (Demo.le_bytes 8 42 ++ skipn 8 (Buffer_alloc 1000)));
    reflexivity.
Defined.

(** A byte string of 997 bytes is a value of the [blob] type that its
    Layout round-trips on a buffer of 1001 bytes (and on every larger
    one), yet [encode] fails on it: the body needs 1001 bytes and the
    scratch buffer has 1000. *)
Lemma roundtrip_fails_beyond_scratch_buffer :
  let c := Demo.legacy_coder in
  let v := Demo.big_value in
  BorshAccountsCoder.constructor Demo.typeDefLayout Demo.idl_legacy = Ok c
  /\ BorshAccountsCoder.accountLayouts c !! "blob" = Some Demo.bytes_layout
  /\ (forall b : Buffer,
         (1001 <= length b)%nat ->
         exists written,
           layout_encode Demo.bytes_layout v b = Ok (1001%nat, written)
           /\ layout_decode Demo.bytes_layout (slice written 0 1001) = Ok v)
  /\ BorshAccountsCoder.encode c "blob" v
     = Err (LayoutError "RangeError: encoding overruns Buffer")
  /\ ~ (exists record,
           BorshAccountsCoder.encode c "blob" v = Ok record
           /\ BorshAccountsCoder.decode c "blob" record = Ok v).
Proof.
  cbv zeta.
  assert (He : BorshAccountsCoder.encode Demo.legacy_coder "blob" Demo.big_value
               = Err (LayoutError "RangeError: encoding overruns Buffer"))
    by (vm_compute; reflexivity).
  split; [reflexivity|]. split; [reflexivity|]. split.
  - intros b Hb.
    apply (bytes_layout_roundtrip (repeat x00 997) b); rewrite repeat_length; [lia|exact Hb].
  - split; [exact He|]. intros [record [Hr _]]. rewrite He in Hr. discriminate Hr.
Qed.

(** [decode] of an unregistered name reports a discriminator mismatch on an
    empty input, not an unknown type. *)
Lemma unregistered_decode_reports_mismatch :
  BorshAccountsCoder.constructor Demo.typeDefLayout Demo.idl_legacy
  = Ok Demo.legacy_coder
  /\ BorshAccountsCoder.accountLayouts Demo.legacy_coder !! "unknownType" = None
  /\ BorshAccountsCoder.decode Demo.legacy_coder "unknownType" []
     = Err InvalidAccountDiscriminator
  /\ BorshAccountsCoder.decode Demo.legacy_coder "unknownType" []
     <> Err (UnknownAccount "unknownType").
Proof.
  do 2 (split; [reflexivity|]).
  assert (Hd : BorshAccountsCoder.decode Demo.legacy_coder "unknownType" []
               = Err InvalidAccountDiscriminator) by (vm_compute; reflexivity).
  split; [exact Hd|]. rewrite Hd. discriminate.
Qed.

Lemma decode_unregistered_witness :
  let c := Demo.legacy_coder in
  let tagged := unhex [253; 108; 27; 78; 120; 106; 169; 54; 1; 2; 3] in
  BorshAccountsCoder.constructor Demo.typeDefLayout Demo.idl_legacy = Ok c
  /\ accounts Demo.idl_legacy = Some [Demo.counter; Demo.blob]
  /\ BorshAccountsCoder.accountLayouts c !! "unknownType" = None
  /\ BorshAccountsCoder.decode c "unknownType" tagged = Err (UnknownAccount "unknownType")
  /\ BorshAccountsCoder.decode c "unknownType" [] = Err InvalidAccountDiscriminator.
Proof.
  cbv zeta. do 3 (split; [reflexivity|]). split.
  - apply (decode_unregistered Demo.typeDefLayout Demo.idl_legacy Demo.legacy_coder
             [Demo.counter; Demo.blob] "unknownType"
             (unhex [253; 108; 27; 78; 120; 106; 169; 54; 1; 2; 3])
             eq_refl eq_refl eq_refl).
    vm_compute. reflexivity.
  - apply (decode_unregistered Demo.typeDefLayout Demo.idl_legacy Demo.legacy_coder
             [Demo.counter; Demo.blob] "unknownType" [] eq_refl eq_refl eq_refl).
    vm_compute. discriminate.
Defined.

(** The filter builder answers for a name that is not registered. *)
Lemma memcmp_unregistered_returns :
  BorshAccountsCoder.constructor Demo.typeDefLayout Demo.idl_legacy
  = Ok Demo.legacy_coder
  /\ BorshAccountsCoder.accountLayouts Demo.legacy_coder !! "unknownType" = None
  /\ BorshAccountsCoder.memcmp Demo.legacy_coder "unknownType"
     = Ok {| offset := 0; bytes := "jPWo1uA6BNu" |}
  /\ BorshAccountsCoder.memcmp Demo.legacy_coder "unknownType"
     <> Err (UnknownAccount "unknownType").
Proof.
  do 2 (split; [reflexivity|]).
  assert (Hm : BorshAccountsCoder.memcmp Demo.legacy_coder "unknownType"
               = Ok {| offset := 0; bytes := "jPWo1uA6BNu" |}) by (vm_compute; reflexivity).
  split; [exact Hm|]. rewrite Hm. discriminate.
Qed.

Lemma memcmp_descriptor_witness :
  let c := Demo.versioned_coder in
  BorshAccountsCoder.constructor Demo.typeDefLayout Demo.idl_versioned = Ok c
  /\ is_Some (BorshAccountsCoder.accountLayouts c !! "counter")
  /\ BorshAccountsCoder.memcmp c "counter"
     = Ok {| offset := BorshAccountHeader.discriminatorOffset
                         (BorshAccountHeader.new Demo.idl_versioned);
             bytes := Base58.encode
                        (BorshAccountHeader.discriminator
                           (BorshAccountHeader.new Demo.idl_versioned) "counter" None) |}
  /\ BorshAccountsCoder.memcmp c "counter" = Ok {| offset := 2; bytes := "7Y4xzg" |}.
Proof.
  cbv zeta. split; [reflexivity|].
  split; [exists Demo.u64_layout; reflexivity|].
  split; [|vm_compute; reflexivity].
  apply (memcmp_descriptor Demo.typeDefLayout Demo.idl_versioned
           Demo.versioned_coder "counter" eq_refl).
  right. exists Demo.u64_layout. reflexivity.
Defined.

(** A record encoded as a [blob] goes through [decodeUnchecked] for the
    [counter] type: its body is read as a counter. *)
Lemma decodeUnchecked_skips_check_witness :
  let c := Demo.legacy_coder in
  let record := unhex [48; 230; 204; 234; 142; 194; 54; 53; 4; 0; 0; 0; 1; 2; 3; 4] in
  BorshAccountsCoder.encode c "blob" (Demo.VBytes [x01; x02; x03; x04]) = Ok record
  /\ BorshAccountsCoder.decodeUnchecked c "counter" record <> Err InvalidAccountDiscriminator
  /\ BorshAccountsCoder.decodeUnchecked c "counter" record = Ok (Demo.VU64 289077004400066564).
Proof.
  cbv zeta. split; [vm_compute; reflexivity|]. split; [|vm_compute; reflexivity].
  apply (proj2 (proj2 (decodeUnchecked_skips_check Demo.legacy_coder "counter" []))
           "blob" (Demo.VBytes [x01; x02; x03; x04])).
  vm_compute. reflexivity.
Defined.

(** On the coder of a schema with an empty accounts list, [decode] reports
    a discriminator mismatch and the filter builder returns a descriptor:
    neither reports an unknown type. *)
Lemma empty_registry_not_always_unknown_type :
  BorshAccountsCoder.constructor Demo.typeDefLayout Demo.idl_empty
  = Ok Demo.empty_coder
  /\ BorshAccountsCoder.accountLayouts Demo.empty_coder !! "counter" = None
  /\ BorshAccountsCoder.decode Demo.empty_coder "counter" []
     = Err InvalidAccountDiscriminator
  /\ BorshAccountsCoder.memcmp Demo.empty_coder "counter"
     = Ok {| offset := 0; bytes := "jmVQbGxuVYt" |}.
Proof. repeat split; vm_compute; reflexivity. Qed.

Lemma zero_account_types_witness :
  accounts Demo.idl_empty = Some []
  /\ exists c,
       BorshAccountsCoder.constructor Demo.typeDefLayout Demo.idl_empty = Ok c
       /\ BorshAccountsCoder.encode c "counter" (Demo.VU64 42)
          = Err (UnknownAccount "counter")
       /\ BorshAccountsCoder.decodeUnchecked c "counter" [] = Err (UnknownAccount "counter").
Proof.
  split; [reflexivity|].
  destruct (zero_account_types Demo.typeDefLayout Demo.idl_empty (or_intror eq_refl))
    as [c [Hc [_ [He [Hu _]]]]].
  exists c. split; [exact Hc|]. split; [apply He | apply Hu].
Defined.

Lemma encode_scratch_buffer_witness :
  let c := Demo.legacy_coder in
  let small := Demo.VBytes [x01; x02] in
  BorshAccountsCoder.constructor Demo.typeDefLayout Demo.idl_legacy = Ok c
  /\ BorshAccountsCoder.accountLayouts c !! "blob" = Some Demo.bytes_layout
  /\ (exists msg, BorshAccountsCoder.encode c "blob" Demo.big_value = Err (LayoutError msg))
  /\ BorshAccountsCoder.encode c "blob" small
     = Ok (BorshAccountHeader.encode (BorshAccountHeader.new Demo.idl_legacy) "blob" None
           ++ Demo.le_bytes 4 2 ++ [x01; x02]).
Proof.
  cbv zeta. split; [reflexivity|]. split; [reflexivity|]. split.
  - apply (proj1 (encode_scratch_buffer Demo.typeDefLayout Demo.idl_legacy
                    Demo.legacy_coder "blob" Demo.bytes_layout Demo.big_value _
                    eq_refl eq_refl (bytes_layout_writes_body (repeat x00 997)))).
    rewrite length_app, repeat_length. simpl. lia.
  - apply (proj2 (encode_scratch_buffer Demo.typeDefLayout Demo.idl_legacy
                    Demo.legacy_coder "blob" Demo.bytes_layout
                    (Demo.VBytes [x01; x02]) _
                    eq_refl eq_refl (bytes_layout_writes_body [x01; x02]))).
    simpl. lia.
Defined.

(** * Further properties of the coder *)

(** ** The registry the constructor builds *)

Section ConstructorProperties.
Context {Value IdlTypeDefTy : Type}.
Context (typeDefLayout :
           IdlTypeDef IdlTypeDefTy -> option (list (IdlTypeDef IdlTypeDefTy)) ->
           outcome string (Layout Value)).
Implicit Types (c : BorshAccountsCoder.t Value IdlTypeDefTy) (i : Idl IdlTypeDefTy).
Implicit Types (L : Layout Value) (acc : IdlTypeDef IdlTypeDefTy).
Implicit Types (accs pre post : list (IdlTypeDef IdlTypeDefTy)).
Implicit Types (layouts : list (string * Layout Value)).

Lemma account_layouts_Ok accs tys layouts :
  BorshAccountsCoder.account_layouts typeDefLayout accs tys = Ok layouts ->
  Forall2 (fun acc kv => kv.1 = name acc /\ typeDefLayout acc tys = Ok kv.2) accs layouts.
Proof.
  revert layouts. induction accs as [|acc accs IH]; intros layouts H; simpl in H.
  - injection H as <-. constructor.
  - destruct (typeDefLayout acc tys) as [L|msg] eqn:E; simpl in H; [|discriminate].
    destruct (BorshAccountsCoder.account_layouts typeDefLayout accs tys) as [ls|e] eqn:E2;
      simpl in H; [|discriminate].
    injection H as <-. constructor; [split; [reflexivity|exact E]|]. apply IH. reflexivity.
Qed.

Lemma account_layouts_Err accs tys e :
  BorshAccountsCoder.account_layouts typeDefLayout accs tys = Err e ->
  exists pre acc post msg,
    accs = pre ++ acc :: post
    /\ Forall (fun a => exists L, typeDefLayout a tys = Ok L) pre
    /\ typeDefLayout acc tys = Err msg
    /\ e = IdlError msg.
Proof.
  induction accs as [|acc accs IH]; intros H; simpl in H; [discriminate|].
  destruct (typeDefLayout acc tys) as [L|msg] eqn:E; simpl in H.
  - destruct (BorshAccountsCoder.account_layouts typeDefLayout accs tys) as [ls|e'] eqn:E2;
      simpl in H; [discriminate|].
    injection H as <-.
    destruct (IH eq_refl) as (pre & a & post & msg & -> & Hpre & Ha & ->).
    exists (acc :: pre), a, post, msg. repeat split; try assumption.
    constructor; [eauto|assumption].
  - injection H as <-. exists [], acc, accs, msg. repeat split; try assumption. constructor.
Qed.

Lemma account_layouts_total accs tys :
  Forall (fun a => exists L, typeDefLayout a tys = Ok L) accs ->
  exists layouts, BorshAccountsCoder.account_layouts typeDefLayout accs tys = Ok layouts.
Proof.
  induction 1 as [|acc accs [L HL] _ [ls IH]]; simpl; [eauto|].
  rewrite HL, IH. simpl. eauto.
Qed.

Lemma fold_insert_lookup_notin layouts (m : gmap string (Layout Value)) (k : string) :
  k ∉ layouts.*1 ->
  fold_left (fun m kv => <[kv.1 := kv.2]> m) layouts m !! k = m !! k.
Proof.
  revert m. induction layouts as [|[k' v] l IH]; intros m Hk; simpl; [reflexivity|].
  simpl in Hk. apply not_elem_of_cons in Hk as [Hne Hk].
  rewrite IH by exact Hk. apply lookup_insert_ne. congruence.
Qed.

Lemma Map_of_lookup_last (lpre lpost : list (string * Layout Value)) (k : string) L :
  k ∉ lpost.*1 ->
  BorshAccountsCoder.Map_of (lpre ++ (k, L) :: lpost) !! k = Some L.
Proof.
  intros Hk. unfold BorshAccountsCoder.Map_of. rewrite fold_left_app. simpl.
  rewrite fold_insert_lookup_notin by exact Hk. apply lookup_insert_eq.
Qed.

Lemma fold_insert_is_Some layouts (m : gmap string (Layout Value)) (k : string) :
  is_Some (fold_left (fun m kv => <[kv.1 := kv.2]> m) layouts m !! k)
  <-> k ∈ layouts.*1 \/ is_Some (m !! k).
Proof.
  revert m. induction layouts as [|[k' v] l IH]; intros m; simpl.
  - split; [auto|]. intros [H|H]; [|exact H]. inversion H.
  - rewrite IH, elem_of_cons. destruct (decide (k' = k)) as [->|Hne].
    + rewrite lookup_insert_eq. split; [auto|]. intros _. right. eauto.
    + rewrite lookup_insert_ne by exact Hne. split.
      * intros [H|H]; auto.
      * intros [[H|H]|H]; auto. congruence.
Qed.

Lemma layouts_names accs tys layouts :
  Forall2 (fun acc kv => kv.1 = name acc /\ typeDefLayout acc tys = Ok kv.2) accs layouts ->
  layouts.*1 = name <$> accs.
Proof.
  induction 1 as [|acc [k v] accs l [Hk _] _ IH]; [reflexivity|].
  rewrite !fmap_cons. simpl in Hk. simpl. rewrite Hk. f_equal. exact IH.
Qed.

(** X1. The constructor fails only when a Layout cannot be built, and then
    with the exception of the first account in schema order whose Layout
    fails; when every Layout builds (or the schema has no accounts member)
    it returns a coder. *)
Theorem constructor_fails_with_first_layout_error i :
  (forall e,
      BorshAccountsCoder.constructor typeDefLayout i = Err e ->
      exists pre acc post msg,
        accounts i = Some (pre ++ acc :: post)
        /\ Forall (fun a => exists L, typeDefLayout a (types i) = Ok L) pre
        /\ typeDefLayout acc (types i) = Err msg
        /\ e = IdlError msg)
  /\ ((forall accs, accounts i = Some accs ->
         Forall (fun a => exists L, typeDefLayout a (types i) = Ok L) accs) ->
      exists c, BorshAccountsCoder.constructor typeDefLayout i = Ok c).
Proof.
  unfold BorshAccountsCoder.constructor. split.
  - intros e H. destruct (accounts i) as [accs|]; [|discriminate].
    destruct (BorshAccountsCoder.account_layouts typeDefLayout accs (types i))
      as [ls|e'] eqn:E; simpl in H; [discriminate|].
    injection H as <-.
    destruct (account_layouts_Err accs (types i) e' E) as (pre & a & post & msg & -> & ?).
    exists pre, a, post, msg. tauto.
  - intros H. destruct (accounts i) as [accs|]; [|eauto].
    destruct (account_layouts_total accs (types i) (H accs eq_refl)) as [ls ->].
    simpl. eauto.
Qed.

(** X2. After construction the registered names are exactly the names of
    the accounts of the schema. *)
Theorem constructor_registers_account_names i c accs (T : string) :
  BorshAccountsCoder.constructor typeDefLayout i = Ok c ->
  accounts i = Some accs ->
  is_Some (BorshAccountsCoder.accountLayouts c !! T) <-> T ∈ (name <$> accs).
Proof.
  intros Hc Ha.
  destruct (constructor_header typeDefLayout i c accs Hc Ha) as [_ (ls & Hls & ->)].
  apply account_layouts_Ok, layouts_names in Hls. rewrite <- Hls.
  unfold BorshAccountsCoder.Map_of. rewrite fold_insert_is_Some.
  rewrite lookup_empty. split; [|auto]. intros [H|H]; [exact H|]. destruct H; discriminate.
Qed.

(** X3. When the schema declares a name more than once, the registry holds
    the Layout of the last declaration of that name. *)
Theorem constructor_last_declaration_wins i c pre acc post :
  BorshAccountsCoder.constructor typeDefLayout i = Ok c ->
  accounts i = Some (pre ++ acc :: post) ->
  name acc ∉ (name <$> post) ->
  exists L,
    typeDefLayout acc (types i) = Ok L
    /\ BorshAccountsCoder.accountLayouts c !! name acc = Some L.
Proof.
  intros Hc Ha Hlast.
  destruct (constructor_header typeDefLayout i c _ Hc Ha) as [_ (ls & Hls & ->)].
  apply account_layouts_Ok in Hls.
  apply Forall2_app_inv_l in Hls as (lpre & lrest & _ & Hrest & ->).
  apply Forall2_cons_inv_l in Hrest as ([k L] & lpost & [Hk HL] & Hpost & ->).
  simpl in Hk, HL. subst k. exists L. split; [exact HL|].
  apply Map_of_lookup_last. rewrite (layouts_names _ _ _ Hpost). exact Hlast.
Qed.

End ConstructorProperties.

(** ** How the header methods fit together *)

Section HeaderComposition.
Context {IdlTypeDefTy : Type}.
Implicit Types (h : BorshAccountHeader.t IdlTypeDefTy).

Lemma parseDiscriminator_slice h (data : Buffer) :
  BorshAccountHeader.parseDiscriminator h data
  = slice data (BorshAccountHeader.discriminatorOffset h)
          (BorshAccountHeader.discriminatorOffset h + BorshAccountHeader.discriminatorSize h).
Proof.
  unfold BorshAccountHeader.parseDiscriminator, BorshAccountHeader.discriminatorOffset,
    BorshAccountHeader.discriminatorSize.
  destruct (layoutVersion _); reflexivity.
Qed.

Lemma discriminator_fits_header h :
  (BorshAccountHeader.discriminatorOffset h + BorshAccountHeader.discriminatorSize h
   <= BorshAccountHeader.size)%nat.
Proof.
  unfold BorshAccountHeader.discriminatorOffset, BorshAccountHeader.discriminatorSize,
    BorshAccountHeader.size.
  destruct (layoutVersion _); vm_compute; lia.
Qed.

Lemma length_parseDiscriminator h (data : Buffer) :
  length (BorshAccountHeader.parseDiscriminator h data)
  = Nat.min (BorshAccountHeader.discriminatorSize h)
            (length data - BorshAccountHeader.discriminatorOffset h).
Proof.
  rewrite parseDiscriminator_slice. unfold slice.
  rewrite length_take, length_drop. f_equal. lia.
Qed.

Lemma discriminator_same_canonical_name h (T T' : string) (nameSpace : option string) :
  Camelcase.camelCase T' true = Camelcase.camelCase T true ->
  BorshAccountHeader.discriminator h T' nameSpace
  = BorshAccountHeader.discriminator h T nameSpace.
Proof. intros H. unfold BorshAccountHeader.discriminator. rewrite H. reflexivity. Qed.

(** X4. The three header methods agree on where the discriminator is:
    [parseDiscriminator] reads [discriminatorSize()] bytes from
    [discriminatorOffset()], that range lies inside the 8-byte header, and
    what it reads from a header that [encode] built is the discriminator
    of the encoded name. *)
Theorem parseDiscriminator_reads_at_offset h (data : Buffer)
        (typeName : string) (nameSpace : option string) :
  BorshAccountHeader.parseDiscriminator h data
  = slice data (BorshAccountHeader.discriminatorOffset h)
          (BorshAccountHeader.discriminatorOffset h + BorshAccountHeader.discriminatorSize h)
  /\ (BorshAccountHeader.discriminatorOffset h + BorshAccountHeader.discriminatorSize h
      <= BorshAccountHeader.size)%nat
  /\ BorshAccountHeader.parseDiscriminator h (BorshAccountHeader.encode h typeName nameSpace)
     = BorshAccountHeader.discriminator h typeName nameSpace.
Proof.
  split; [apply parseDiscriminator_slice|]. split; [apply discriminator_fits_header|].
  rewrite <- (app_nil_r (BorshAccountHeader.encode h typeName nameSpace)).
  apply parseDiscriminator_header.
Qed.

(** X5. The versioned discriminator of a name is the first 4 bytes of its
    legacy discriminator, and the versioned header carries those 4 bytes
    between two pairs of zero bytes. *)
Theorem versioned_discriminator_prefix_of_legacy
        (legacy versioned_ : BorshAccountHeader.t IdlTypeDefTy)
        (typeName : string) (nameSpace : option string) (version : string) :
  layoutVersion (BorshAccountHeader._idl legacy) = None ->
  layoutVersion (BorshAccountHeader._idl versioned_) = Some version ->
  BorshAccountHeader.discriminator versioned_ typeName nameSpace
  = firstn 4 (BorshAccountHeader.discriminator legacy typeName nameSpace)
  /\ BorshAccountHeader.encode versioned_ typeName nameSpace
     = [x00; x00] ++ firstn 4 (BorshAccountHeader.encode legacy typeName nameSpace)
       ++ [x00; x00].
Proof.
  intros Hl Hv.
  assert (Hd : BorshAccountHeader.discriminator versioned_ typeName nameSpace
               = firstn 4 (BorshAccountHeader.discriminator legacy typeName nameSpace)).
  { unfold BorshAccountHeader.discriminator, BorshAccountHeader.discriminatorSize.
    rewrite Hl, Hv, !slice_0. unfold ACCOUNT_DISCRIMINATOR_SIZE,
      DEPRECATED_ACCOUNT_DISCRIMINATOR_SIZE.
    rewrite take_take. reflexivity. }
  split; [exact Hd|].
  unfold BorshAccountHeader.encode. rewrite Hl, Hv, Hd. reflexivity.
Qed.

End HeaderComposition.

Lemma versioned_discriminator_prefix_of_legacy_witness :
  let legacy := BorshAccountHeader.new Demo.idl_legacy in
  let versioned_ := BorshAccountHeader.new Demo.idl_versioned in
  layoutVersion Demo.idl_legacy = None
  /\ layoutVersion Demo.idl_versioned = Some "0.1.0"
  /\ BorshAccountHeader.discriminator versioned_ "counter" None
     = firstn 4 (BorshAccountHeader.discriminator legacy "counter" None).
Proof.
  cbv zeta. do 2 (split; [reflexivity|]).
  apply (proj1 (versioned_discriminator_prefix_of_legacy
                  (BorshAccountHeader.new Demo.idl_legacy)
                  (BorshAccountHeader.new Demo.idl_versioned)
                  "counter" None "0.1.0" eq_refl eq_refl)).
Defined.

(** ** What decode accepts and rejects *)

Section DecodeProperties.
Context {Value IdlTypeDefTy : Type}.
Implicit Types (c : BorshAccountsCoder.t Value IdlTypeDefTy).
Implicit Types (h : BorshAccountHeader.t IdlTypeDefTy) (L : Layout Value).

Lemma encode_Ok_inv c (T : string) (v : Value) (record : Buffer) :
  BorshAccountsCoder.encode c T v = Ok record ->
  exists L len written h,
    BorshAccountsCoder.accountLayouts c !! T = Some L
    /\ layout_encode L v (Buffer_alloc 1000) = Ok (len, written)
    /\ BorshAccountsCoder.header c = Some h
    /\ record = BorshAccountHeader.encode h T None ++ slice written 0 len.
Proof.
  unfold BorshAccountsCoder.encode, BorshAccountsCoder.the_header. intros He.
  destruct (BorshAccountsCoder.accountLayouts c !! T) as [L|] eqn:HT; [|discriminate].
  destruct (layout_encode L v (Buffer_alloc 1000)) as [[len written]|] eqn:HL; [|discriminate].
  simpl in He. destruct (BorshAccountsCoder.header c) as [h|] eqn:Hh; [|discriminate].
  simpl in He. injection He as <-. exists L, len, written, h. repeat split; solve [assumption | reflexivity].
Qed.

Lemma decodeUnchecked_not_mismatch c (T : string) (ix : Buffer) :
  BorshAccountsCoder.decodeUnchecked c T ix <> Err InvalidAccountDiscriminator
  /\ BorshAccountsCoder.decodeUnchecked c T ix <> Err TypeError.
Proof.
  unfold BorshAccountsCoder.decodeUnchecked.
  destruct (BorshAccountsCoder.accountLayouts c !! T) as [L|]; [|split; discriminate].
  destruct (layout_decode L _); split; discriminate.
Qed.

Lemma decode_cases c h (T : string) (data : Buffer) :
  BorshAccountsCoder.header c = Some h ->
  (BorshAccountHeader.parseDiscriminator h data = BorshAccountHeader.discriminator h T None
   /\ BorshAccountsCoder.decode c T data = BorshAccountsCoder.decodeUnchecked c T data)
  \/ (BorshAccountHeader.parseDiscriminator h data <> BorshAccountHeader.discriminator h T None
      /\ BorshAccountsCoder.decode c T data = Err InvalidAccountDiscriminator).
Proof.
  intros Hh.
  destruct (Z.eqb_spec
              (Buffer_compare (BorshAccountHeader.parseDiscriminator h data)
                              (BorshAccountHeader.discriminator h T None)) 0) as [E|E].
  - apply Buffer_compare_eq in E. left. split; [exact E|]. apply (decode_match c h T data Hh E).
  - right.
    assert (Hne : BorshAccountHeader.parseDiscriminator h data
                  <> BorshAccountHeader.discriminator h T None).
    { intros E'. apply E, Buffer_compare_eq, E'. }
    split; [exact Hne|]. apply (decode_mismatch c h T data Hh Hne).
Qed.

(** X6. A value that [decode] returns was read by the Layout registered
    for the name from the bytes after the first 8, and the input carried
    the discriminator of that name. *)
Theorem decode_Ok_sound c (T : string) (data : Buffer) (v : Value) :
  BorshAccountsCoder.decode c T data = Ok v ->
  exists h L,
    BorshAccountsCoder.header c = Some h
    /\ BorshAccountHeader.parseDiscriminator h data = BorshAccountHeader.discriminator h T None
    /\ BorshAccountsCoder.accountLayouts c !! T = Some L
    /\ layout_decode L (skipn 8 data) = Ok v
    /\ BorshAccountsCoder.decodeUnchecked c T data = Ok v.
Proof.
  intros Hd. destruct (BorshAccountsCoder.header c) as [h|] eqn:Hh;
    [|unfold BorshAccountsCoder.decode, BorshAccountsCoder.the_header in Hd;
      rewrite Hh in Hd; discriminate].
  destruct (decode_cases c h T data Hh) as [[Hp He]|[_ He]]; rewrite He in Hd; [|discriminate].
  pose proof Hd as Hu. unfold BorshAccountsCoder.decodeUnchecked in Hu.
  destruct (BorshAccountsCoder.accountLayouts c !! T) as [L|]; [|discriminate].
  exists h, L. repeat split; try assumption.
  unfold slice_from, BorshAccountHeader.size, ACCOUNT_HEADER_SIZE in Hu.
  destruct (layout_decode L (skipn 8 data)); simpl in Hu; congruence.
Qed.

(** X7. On a coder with a header codec, [decode] reports the discriminator
    mismatch exactly for the inputs whose discriminator bytes differ from
    the discriminator of the requested name. *)
Theorem decode_mismatch_iff c h (T : string) (data : Buffer) :
  BorshAccountsCoder.header c = Some h ->
  BorshAccountsCoder.decode c T data = Err InvalidAccountDiscriminator
  <-> BorshAccountHeader.parseDiscriminator h data <> BorshAccountHeader.discriminator h T None.
Proof.
  intros Hh. destruct (decode_cases c h T data Hh) as [[Hp He]|[Hp He]]; rewrite He.
  - split; [|contradiction]. intros Hu. apply decodeUnchecked_not_mismatch in Hu. contradiction.
  - split; auto.
Qed.

(** X8. An input that ends before the discriminator does (fewer than 8
    bytes legacy, fewer than 6 versioned) is rejected by [decode] with the
    discriminator mismatch, whatever the name; [decodeUnchecked] does not
    reject an input of at most 8 bytes but hands the Layout an empty
    buffer. *)
Theorem decode_short_input c h (T : string) (data : Buffer) :
  BorshAccountsCoder.header c = Some h ->
  (length data < BorshAccountHeader.discriminatorOffset h
                 + BorshAccountHeader.discriminatorSize h)%nat ->
  BorshAccountsCoder.decode c T data = Err InvalidAccountDiscriminator
  /\ forall L, BorshAccountsCoder.accountLayouts c !! T = Some L ->
       BorshAccountsCoder.decodeUnchecked c T data = rethrow LayoutError (layout_decode L []).
Proof.
  intros Hh Hlen. split.
  - apply (decode_mismatch c h T data Hh). intros E.
    apply (f_equal length) in E.
    rewrite length_parseDiscriminator, length_discriminator in E.
    pose proof (discriminatorSize_cases h) as Hs.
    destruct (versioned (BorshAccountHeader._idl h)); lia.
  - intros L HT. unfold BorshAccountsCoder.decodeUnchecked, slice_from. rewrite HT.
    rewrite drop_ge; [reflexivity|].
    pose proof (discriminator_fits_header h). lia.
Qed.

(** X9. In the versioned format [decode] never looks at the version byte,
    the bump byte or the two unused bytes: with any values there the
    result is the one for the header [encode] writes. *)
Theorem decode_ignores_reserved_bytes c h (T : string) (version : string)
        (b0 b1 u0 u1 : byte) (disc body : Buffer) :
  BorshAccountsCoder.header c = Some h ->
  layoutVersion (BorshAccountHeader._idl h) = Some version ->
  length disc = 4%nat ->
  BorshAccountsCoder.decode c T ([b0; b1] ++ disc ++ [u0; u1] ++ body)
  = BorshAccountsCoder.decode c T ([x00; x00] ++ disc ++ [x00; x00] ++ body).
Proof.
  intros Hh Hv Hd.
  assert (Hp : forall a0 a1 a2 a3,
             BorshAccountHeader.parseDiscriminator h ([a0; a1] ++ disc ++ [a2; a3] ++ body)
             = disc).
  { intros. unfold BorshAccountHeader.parseDiscriminator, slice. rewrite Hv.
    change (skipn 2 ([a0; a1] ++ disc ++ [a2; a3] ++ body)) with (disc ++ [a2; a3] ++ body).
    apply take_app_length'. symmetry. exact Hd. }
  assert (Hs : forall a0 a1 a2 a3,
             BorshAccountsCoder.decodeUnchecked c T ([a0; a1] ++ disc ++ [a2; a3] ++ body)
             = BorshAccountsCoder.decodeUnchecked c T
                 ([x00; x00] ++ disc ++ [x00; x00] ++ body)).
  { intros. unfold BorshAccountsCoder.decodeUnchecked, slice_from, BorshAccountHeader.size,
      ACCOUNT_HEADER_SIZE.
    destruct disc as [|d0 [|d1 [|d2 [|d3 [|]]]]]; try discriminate Hd. reflexivity. }
  destruct (decode_cases c h T ([b0; b1] ++ disc ++ [u0; u1] ++ body) Hh) as [[P1 E1]|[P1 E1]];
    destruct (decode_cases c h T ([x00; x00] ++ disc ++ [x00; x00] ++ body) Hh)
      as [[P2 E2]|[P2 E2]];
    rewrite E1, E2; rewrite Hp in *; solve [reflexivity | apply Hs | congruence].
Qed.

End DecodeProperties.

(** ** Records that encode returns *)

Section RecordProperties.
Context {Value IdlTypeDefTy : Type}.
Implicit Types (c : BorshAccountsCoder.t Value IdlTypeDefTy).
Implicit Types (h : BorshAccountHeader.t IdlTypeDefTy) (L : Layout Value).

(** X10. A record encoded for one type is rejected by [decode] for any
    name whose discriminator differs, with the discriminator mismatch and
    before any Layout is consulted. *)
Theorem decode_rejects_other_type c h (T Other : string) (v : Value) (record : Buffer) :
  BorshAccountsCoder.header c = Some h ->
  BorshAccountsCoder.encode c Other v = Ok record ->
  BorshAccountHeader.discriminator h T None <> BorshAccountHeader.discriminator h Other None ->
  BorshAccountsCoder.decode c T record = Err InvalidAccountDiscriminator.
Proof.
  intros Hh He Hne.
  destruct (encode_Ok_inv c Other v record He) as (L & len & written & h' & _ & _ & Hh' & ->).
  assert (h' = h) by congruence. subst h'.
  apply (decode_mismatch c h T _ Hh). rewrite parseDiscriminator_header. congruence.
Qed.

(** X11. [decode] cannot tell two names with the same canonical form
    apart: a record encoded under one passes the discriminator check under
    the other, and the outcome is that of [decodeUnchecked]. *)
Theorem decode_accepts_same_canonical_name c (T T' : string) (v : Value) (record : Buffer) :
  Camelcase.camelCase T' true = Camelcase.camelCase T true ->
  BorshAccountsCoder.encode c T v = Ok record ->
  BorshAccountsCoder.decode c T' record = BorshAccountsCoder.decodeUnchecked c T' record
  /\ BorshAccountsCoder.decode c T' record <> Err InvalidAccountDiscriminator.
Proof.
  intros Hn He.
  destruct (encode_Ok_inv c T v record He) as (L & len & written & h & _ & _ & Hh & ->).
  assert (Hd : BorshAccountsCoder.decode c T' (BorshAccountHeader.encode h T None
                                               ++ slice written 0 len)
               = BorshAccountsCoder.decodeUnchecked c T' (BorshAccountHeader.encode h T None
                                                          ++ slice written 0 len)).
  { apply (decode_match c h T' _ Hh). rewrite parseDiscriminator_header.
    symmetry. apply discriminator_same_canonical_name, Hn. }
  split; [exact Hd|]. rewrite Hd. apply decodeUnchecked_not_mismatch.
Qed.

(** X12. The filter that [memcmp] builds for a type matches every record
    that [encode] returns for it: the bytes of the record at the filter's
    offset, over the discriminator size, are the bytes the filter encodes
    in base58, and they lie within the record. *)
Theorem memcmp_matches_encoded_record c (T : string) (v : Value) (record : Buffer) :
  BorshAccountsCoder.encode c T v = Ok record ->
  exists h filter,
    BorshAccountsCoder.header c = Some h
    /\ BorshAccountsCoder.memcmp c T = Ok filter
    /\ offset filter = BorshAccountHeader.discriminatorOffset h
    /\ bytes filter
       = Base58.encode
           (slice record (offset filter)
                  (offset filter + BorshAccountHeader.discriminatorSize h))
    /\ (offset filter + BorshAccountHeader.discriminatorSize h <= length record)%nat.
Proof.
  intros He.
  destruct (encode_Ok_inv c T v record He) as (L & len & written & h & _ & _ & Hh & ->).
  exists h. eexists. split; [exact Hh|].
  split; [apply (memcmp_with_header c h T Hh)|]. simpl. split; [reflexivity|].
  rewrite <- parseDiscriminator_slice, parseDiscriminator_header. split; [reflexivity|].
  rewrite length_app, length_header. pose proof (discriminator_fits_header h).
  unfold BorshAccountHeader.size, ACCOUNT_HEADER_SIZE in *. lia.
Qed.

(** X13. [encode] reports an unknown type exactly when the name is not in
    the registry, before the Layout or the header is touched, and always
    for the name it was given; so does [decodeUnchecked]. *)
Theorem unknown_account_iff_unregistered c (T T' : string) (v : Value) (data : Buffer) :
  (BorshAccountsCoder.encode c T v = Err (UnknownAccount T')
   <-> T' = T /\ BorshAccountsCoder.accountLayouts c !! T = None)
  /\ (BorshAccountsCoder.decodeUnchecked c T data = Err (UnknownAccount T')
      <-> T' = T /\ BorshAccountsCoder.accountLayouts c !! T = None).
Proof.
  unfold BorshAccountsCoder.encode, BorshAccountsCoder.decodeUnchecked,
    BorshAccountsCoder.the_header.
  destruct (BorshAccountsCoder.accountLayouts c !! T) as [L|].
  - split; (split; [|intros [_ ?]; discriminate]); intros H; exfalso.
    + destruct (layout_encode L v (Buffer_alloc 1000)) as [[len written]|]; simpl in H;
        [|discriminate].
      destruct (BorshAccountsCoder.header c); simpl in H; discriminate.
    + destruct (layout_decode L _); simpl in H; discriminate.
  - split; (split; [intros H; injection H as <-; auto | intros [-> _]; reflexivity]).
Qed.

(** X14. A record that [encode] returns splits at [memcmpDataOffset()]:
    before it the header of the type, after it the bytes the Layout
    reported as written, and nothing else. *)
Theorem record_splits_at_data_offset c (T : string) (v : Value) (record : Buffer) :
  BorshAccountsCoder.encode c T v = Ok record ->
  exists h L len written,
    BorshAccountsCoder.header c = Some h
    /\ BorshAccountsCoder.accountLayouts c !! T = Some L
    /\ layout_encode L v (Buffer_alloc 1000) = Ok (len, written)
    /\ firstn (BorshAccountsCoder.memcmpDataOffset c) record
       = BorshAccountHeader.encode h T None
    /\ skipn (BorshAccountsCoder.memcmpDataOffset c) record = firstn len written
    /\ length record = (BorshAccountsCoder.memcmpDataOffset c
                        + Nat.min len (length written))%nat.
Proof.
  intros He.
  destruct (encode_Ok_inv c T v record He) as (L & len & written & h & HT & HL & Hh & ->).
  exists h, L, len, written. do 3 (split; [assumption|]).
  unfold BorshAccountsCoder.memcmpDataOffset, BorshAccountHeader.size, ACCOUNT_HEADER_SIZE.
  pose proof (length_header h T None) as Hlen.
  rewrite slice_0. split; [apply take_app_length'; symmetry; exact Hlen|].
  split; [apply drop_app_length'; symmetry; exact Hlen|].
  rewrite length_app, Hlen, length_take. reflexivity.
Qed.

(** X15. The unchecked path round-trips as the checked one does: for a
    value the Layout of a registered type encodes into the scratch buffer
    and decodes back, [decodeUnchecked(T, encode(T, v))] returns the
    value. *)
Theorem decodeUnchecked_encode_roundtrip c h (T : string) L (v : Value)
        (len : nat) (written : Buffer) :
  BorshAccountsCoder.header c = Some h ->
  BorshAccountsCoder.accountLayouts c !! T = Some L ->
  layout_encode L v (Buffer_alloc 1000) = Ok (len, written) ->
  layout_decode L (slice written 0 len) = Ok v ->
  exists record,
    BorshAccountsCoder.encode c T v = Ok record
    /\ BorshAccountsCoder.decodeUnchecked c T record = Ok v.
Proof.
  intros Hh HT He Hd. eexists. split; [apply (encode_written c h T L v len written Hh HT He)|].
  unfold BorshAccountsCoder.decodeUnchecked. rewrite HT, skipn_header, Hd. reflexivity.
Qed.

End RecordProperties.

(** ** The coder without a header codec *)

Section MissingHeader.
Context {Value IdlTypeDefTy : Type}.
Context (typeDefLayout :
           IdlTypeDef IdlTypeDefTy -> option (list (IdlTypeDef IdlTypeDefTy)) ->
           outcome string (Layout Value)).
Implicit Types (c : BorshAccountsCoder.t Value IdlTypeDefTy) (i : Idl IdlTypeDefTy).

(** X16. On a constructed coder [decode] and [memcmp] throw the
    [TypeError] of the unset header exactly when the schema has no
    accounts member, for every name and input; [encode] and
    [decodeUnchecked] never throw it. *)
Theorem TypeError_iff_no_accounts_member i c (T : string) (v : Value) (data : Buffer) :
  BorshAccountsCoder.constructor typeDefLayout i = Ok c ->
  (BorshAccountsCoder.decode c T data = Err TypeError <-> accounts i = None)
  /\ (BorshAccountsCoder.memcmp c T = Err TypeError <-> accounts i = None)
  /\ BorshAccountsCoder.encode c T v <> Err TypeError
  /\ BorshAccountsCoder.decodeUnchecked c T data <> Err TypeError.
Proof.
  intros Hc. destruct (accounts i) as [accs|] eqn:Ha.
  - destruct (constructor_header typeDefLayout i c accs Hc Ha) as [Hh _].
    split; [|split; [|split]].
    + split; [|discriminate]. intros Hd.
      destruct (decode_cases c _ T data Hh) as [[_ E]|[_ E]]; rewrite E in Hd;
        [apply decodeUnchecked_not_mismatch in Hd; contradiction | discriminate].
    + rewrite (memcmp_with_header c _ T Hh). split; discriminate.
    + unfold BorshAccountsCoder.encode, BorshAccountsCoder.the_header. rewrite Hh.
      destruct (BorshAccountsCoder.accountLayouts c !! T) as [L|]; [|discriminate].
      destruct (layout_encode L v (Buffer_alloc 1000)) as [[len written]|]; discriminate.
    + apply decodeUnchecked_not_mismatch.
  - rewrite (constructor_no_accounts typeDefLayout i Ha) in Hc. injection Hc as <-.
    split; [|split; [|split]].
    + split; reflexivity.
    + split; reflexivity.
    + discriminate.
    + discriminate.
Qed.

End MissingHeader.

(** ** The further properties on the concrete schemas *)

Lemma constructor_fails_with_first_layout_error_witness :
  (exists c, BorshAccountsCoder.constructor Demo.typeDefLayout Demo.idl_legacy = Ok c)
  /\ BorshAccountsCoder.constructor DemoEdge.typeDefLayout_no_bytes Demo.idl_legacy
     = Err (IdlError "IdlError: Type not found")
  /\ exists pre acc post msg,
       accounts Demo.idl_legacy = Some (pre ++ acc :: post)
       /\ Forall (fun a => exists L, DemoEdge.typeDefLayout_no_bytes a None = Ok L) pre
       /\ DemoEdge.typeDefLayout_no_bytes acc None = Err msg
       /\ IdlError "IdlError: Type not found" = IdlError msg.
Proof.
  split; [|split; [reflexivity|]].
  - apply (proj2 (constructor_fails_with_first_layout_error Demo.typeDefLayout Demo.idl_legacy)).
    intros accs Ha. injection Ha as <-.
    repeat constructor; eexists; reflexivity.
  - apply (proj1 (constructor_fails_with_first_layout_error
                    DemoEdge.typeDefLayout_no_bytes Demo.idl_legacy)).
    reflexivity.
Defined.

Lemma constructor_registers_account_names_witness :
  BorshAccountsCoder.constructor Demo.typeDefLayout Demo.idl_legacy = Ok Demo.legacy_coder
  /\ accounts Demo.idl_legacy = Some [Demo.counter; Demo.blob]
  /\ is_Some (BorshAccountsCoder.accountLayouts Demo.legacy_coder !! "blob")
  /\ "Blob" ∉ (name <$> [Demo.counter; Demo.blob]).
Proof.
  do 2 (split; [reflexivity|]). split.
  - apply (constructor_registers_account_names Demo.typeDefLayout Demo.idl_legacy
             Demo.legacy_coder [Demo.counter; Demo.blob] "blob" eq_refl eq_refl).
    apply list_elem_of_further, list_elem_of_here.
  - intros Hin.
    apply (constructor_registers_account_names Demo.typeDefLayout Demo.idl_legacy
             Demo.legacy_coder [Demo.counter; Demo.blob] "Blob" eq_refl eq_refl) in Hin.
    destruct Hin as [L HL]. vm_compute in HL. discriminate HL.
Defined.

Lemma constructor_last_declaration_wins_witness :
  BorshAccountsCoder.constructor Demo.typeDefLayout DemoEdge.idl_duplicate
  = Ok DemoEdge.duplicate_coder
  /\ accounts DemoEdge.idl_duplicate
     = Some ([DemoEdge.counter_as_bytes; Demo.blob] ++ Demo.counter :: [])
  /\ (name Demo.counter ∉ (name <$> ([] : list (IdlTypeDef Demo.ty))))
  /\ exists L,
       Demo.typeDefLayout Demo.counter None = Ok L
       /\ BorshAccountsCoder.accountLayouts DemoEdge.duplicate_coder !! "counter" = Some L.
Proof.
  do 2 (split; [reflexivity|]). split; [apply not_elem_of_nil|].
  apply (constructor_last_declaration_wins Demo.typeDefLayout DemoEdge.idl_duplicate
           DemoEdge.duplicate_coder [DemoEdge.counter_as_bytes; Demo.blob] Demo.counter []
           eq_refl eq_refl).
  apply not_elem_of_nil.
Defined.

Lemma decode_Ok_sound_witness :
  let record := unhex [255; 176; 4; 245; 188; 253; 124; 25; 42; 0; 0; 0; 0; 0; 0; 0] in
  BorshAccountsCoder.decode Demo.legacy_coder "counter" record = Ok (Demo.VU64 42)
  /\ exists h L,
       BorshAccountsCoder.header Demo.legacy_coder = Some h
       /\ BorshAccountHeader.parseDiscriminator h record
          = BorshAccountHeader.discriminator h "counter" None
       /\ BorshAccountsCoder.accountLayouts Demo.legacy_coder !! "counter" = Some L
       /\ layout_decode L (skipn 8 record) = Ok (Demo.VU64 42)
       /\ BorshAccountsCoder.decodeUnchecked Demo.legacy_coder "counter" record
          = Ok (Demo.VU64 42).
Proof.
  cbv zeta. split; [vm_compute; reflexivity|].
  apply (decode_Ok_sound Demo.legacy_coder "counter"
           (unhex [255; 176; 4; 245; 188; 253; 124; 25; 42; 0; 0; 0; 0; 0; 0; 0])
           (Demo.VU64 42)).
  vm_compute. reflexivity.
Defined.

Lemma decode_mismatch_iff_witness :
  let h := BorshAccountHeader.new Demo.idl_legacy in
  let data := unhex [1; 2; 3; 4; 5; 6; 7; 8; 42; 0; 0; 0; 0; 0; 0; 0] in
  BorshAccountsCoder.header Demo.legacy_coder = Some h
  /\ BorshAccountHeader.parseDiscriminator h data
     <> BorshAccountHeader.discriminator h "counter" None
  /\ BorshAccountsCoder.decode Demo.legacy_coder "counter" data
     = Err InvalidAccountDiscriminator.
Proof.
  cbv zeta. split; [reflexivity|]. split; [vm_compute; discriminate|].
  apply (proj2 (decode_mismatch_iff Demo.legacy_coder (BorshAccountHeader.new Demo.idl_legacy)
                  "counter" (unhex [1; 2; 3; 4; 5; 6; 7; 8; 42; 0; 0; 0; 0; 0; 0; 0])
                  eq_refl)).
  vm_compute. discriminate.
Defined.

Lemma decode_short_input_witness :
  let h := BorshAccountHeader.new Demo.idl_versioned in
  let data := unhex [0; 0; 255; 176; 4] in
  BorshAccountsCoder.header Demo.versioned_coder = Some h
  /\ (length data < BorshAccountHeader.discriminatorOffset h
                    + BorshAccountHeader.discriminatorSize h)%nat
  /\ BorshAccountsCoder.decode Demo.versioned_coder "counter" data
     = Err InvalidAccountDiscriminator.
Proof.
  cbv zeta. split; [reflexivity|]. split; [vm_compute; lia|].
  apply (proj1 (decode_short_input Demo.versioned_coder
                  (BorshAccountHeader.new Demo.idl_versioned)
                  "counter" (unhex [0; 0; 255; 176; 4]) eq_refl ltac:(vm_compute; lia))).
Defined.

Lemma decode_ignores_reserved_bytes_witness :
  let disc := unhex [255; 176; 4; 245] in
  let body := unhex [42; 0; 0; 0; 0; 0; 0; 0] in
  BorshAccountsCoder.header Demo.versioned_coder
  = Some (BorshAccountHeader.new Demo.idl_versioned)
  /\ layoutVersion Demo.idl_versioned = Some "0.1.0"
  /\ length disc = 4%nat
  /\ BorshAccountsCoder.decode Demo.versioned_coder "counter"
       ([x07; xff] ++ disc ++ [x01; x02] ++ body)
     = Ok (Demo.VU64 42).
Proof.
  cbv zeta. do 3 (split; [reflexivity|]).
  rewrite (decode_ignores_reserved_bytes Demo.versioned_coder
             (BorshAccountHeader.new Demo.idl_versioned) "counter" "0.1.0"
             x07 xff x01 x02 (unhex [255; 176; 4; 245]) (unhex [42; 0; 0; 0; 0; 0; 0; 0])
             eq_refl eq_refl eq_refl).
  vm_compute. reflexivity.
Defined.

Lemma decode_rejects_other_type_witness :
  let h := BorshAccountHeader.new Demo.idl_legacy in
  let record := unhex [48; 230; 204; 234; 142; 194; 54; 53; 2; 0; 0; 0; 1; 2] in
  BorshAccountsCoder.header Demo.legacy_coder = Some h
  /\ BorshAccountsCoder.encode Demo.legacy_coder "blob" (Demo.VBytes [x01; x02]) = Ok record
  /\ BorshAccountHeader.discriminator h "counter" None
     <> BorshAccountHeader.discriminator h "blob" None
  /\ BorshAccountsCoder.decode Demo.legacy_coder "counter" record
     = Err InvalidAccountDiscriminator.
Proof.
  cbv zeta. split; [reflexivity|]. split; [vm_compute; reflexivity|].
  split; [vm_compute; discriminate|].
  apply (decode_rejects_other_type Demo.legacy_coder (BorshAccountHeader.new Demo.idl_legacy)
           "counter" "blob" (Demo.VBytes [x01; x02])
           (unhex [48; 230; 204; 234; 142; 194; 54; 53; 2; 0; 0; 0; 1; 2]) eq_refl).
  - vm_compute. reflexivity.
  - vm_compute. discriminate.
Defined.

Lemma decode_accepts_same_canonical_name_witness :
  let record := unhex [255; 176; 4; 245; 188; 253; 124; 25; 42; 0; 0; 0; 0; 0; 0; 0] in
  Camelcase.camelCase "Counter" true = Camelcase.camelCase "counter" true
  /\ BorshAccountsCoder.encode Demo.legacy_coder "counter" (Demo.VU64 42) = Ok record
  /\ BorshAccountsCoder.accountLayouts Demo.legacy_coder !! "Counter" = None
  /\ BorshAccountsCoder.decode Demo.legacy_coder "Counter" record
     <> Err InvalidAccountDiscriminator.
Proof.
  cbv zeta. split; [vm_compute; reflexivity|]. split; [vm_compute; reflexivity|].
  split; [reflexivity|].
  apply (proj2 (decode_accepts_same_canonical_name Demo.legacy_coder "counter" "Counter"
                  (Demo.VU64 42)
                  (unhex [255; 176; 4; 245; 188; 253; 124; 25; 42; 0; 0; 0; 0; 0; 0; 0])
                  ltac:(vm_compute; reflexivity) ltac:(vm_compute; reflexivity))).
Defined.

Lemma memcmp_matches_encoded_record_witness :
  let record := unhex [0; 0; 255; 176; 4; 245; 0; 0; 42; 0; 0; 0; 0; 0; 0; 0] in
  BorshAccountsCoder.encode Demo.versioned_coder "counter" (Demo.VU64 42) = Ok record
  /\ exists h filter,
       BorshAccountsCoder.header Demo.versioned_coder = Some h
       /\ BorshAccountsCoder.memcmp Demo.versioned_coder "counter" = Ok filter
       /\ offset filter = BorshAccountHeader.discriminatorOffset h
       /\ bytes filter
          = Base58.encode
              (slice record (offset filter)
                     (offset filter + BorshAccountHeader.discriminatorSize h))
       /\ (offset filter + BorshAccountHeader.discriminatorSize h <= length record)%nat.
Proof.
  cbv zeta. split; [vm_compute; reflexivity|].
  apply (memcmp_matches_encoded_record Demo.versioned_coder "counter" (Demo.VU64 42)
           (unhex [0; 0; 255; 176; 4; 245; 0; 0; 42; 0; 0; 0; 0; 0; 0; 0])).
  vm_compute. reflexivity.
Defined.

Lemma unknown_account_iff_unregistered_witness :
  BorshAccountsCoder.accountLayouts Demo.legacy_coder !! "vault" = None
  /\ BorshAccountsCoder.encode Demo.legacy_coder "vault" (Demo.VU64 42)
     = Err (UnknownAccount "vault")
  /\ BorshAccountsCoder.decodeUnchecked Demo.legacy_coder "vault" [] = Err (UnknownAccount "vault").
Proof.
  split; [reflexivity|]. split.
  - apply (proj1 (unknown_account_iff_unregistered Demo.legacy_coder "vault" "vault"
                    (Demo.VU64 42) [])).
    split; reflexivity.
  - apply (proj2 (unknown_account_iff_unregistered Demo.legacy_coder "vault" "vault"
                    (Demo.VU64 42) [])).
    split; reflexivity.
Defined.

Lemma record_splits_at_data_offset_witness :
  let record := unhex [48; 230; 204; 234; 142; 194; 54; 53; 2; 0; 0; 0; 1; 2] in
  BorshAccountsCoder.encode Demo.legacy_coder "blob" (Demo.VBytes [x01; x02]) = Ok record
  /\ exists h L len written,
       BorshAccountsCoder.header Demo.legacy_coder = Some h
       /\ BorshAccountsCoder.accountLayouts Demo.legacy_coder !! "blob" = Some L
       /\ layout_encode L (Demo.VBytes [x01; x02]) (Buffer_alloc 1000) = Ok (len, written)
       /\ firstn (BorshAccountsCoder.memcmpDataOffset Demo.legacy_coder) record
          = BorshAccountHeader.encode h "blob" None
       /\ skipn (BorshAccountsCoder.memcmpDataOffset Demo.legacy_coder) record
          = firstn len written
       /\ length record = (BorshAccountsCoder.memcmpDataOffset Demo.legacy_coder
                           + Nat.min len (length written))%nat.
Proof.
  cbv zeta. split; [vm_compute; reflexivity|].
  apply (record_splits_at_data_offset Demo.legacy_coder "blob" (Demo.VBytes [x01; x02])
           (unhex [48; 230; 204; 234; 142; 194; 54; 53; 2; 0; 0; 0; 1; 2])).
  vm_compute. reflexivity.
Defined.

Lemma decodeUnchecked_encode_roundtrip_witness :
  let v := Demo.VBytes [x01; x02] in
  let written := Demo.le_bytes 4 2 ++ [x01; x02] ++ skipn 6 (Buffer_alloc 1000) in
  BorshAccountsCoder.header Demo.versioned_coder
  = Some (BorshAccountHeader.new Demo.idl_versioned)
  /\ BorshAccountsCoder.accountLayouts Demo.versioned_coder !! "blob" = Some Demo.bytes_layout
  /\ layout_encode Demo.bytes_layout v (Buffer_alloc 1000) = Ok (6%nat, written)
  /\ layout_decode Demo.bytes_layout (slice written 0 6) = Ok v
  /\ exists record,
       BorshAccountsCoder.encode Demo.versioned_coder "blob" v = Ok record
       /\ BorshAccountsCoder.decodeUnchecked Demo.versioned_coder "blob" record = Ok v.
Proof.
  cbv zeta. do 4 (split; [reflexivity|]).
  apply (decodeUnchecked_encode_roundtrip Demo.versioned_coder
           (BorshAccountHeader.new Demo.idl_versioned) "blob" Demo.bytes_layout
           (Demo.VBytes [x01; x02]) 6
           (Demo.le_bytes 4 2 ++ [x01; x02] ++ skipn 6 (Buffer_alloc 1000)));
    reflexivity.
Defined.

Lemma TypeError_iff_no_accounts_member_witness :
  BorshAccountsCoder.constructor Demo.typeDefLayout Demo.idl_no_accounts
  = Ok DemoEdge.no_accounts_coder
  /\ accounts Demo.idl_no_accounts = None
  /\ BorshAccountsCoder.decode DemoEdge.no_accounts_coder "counter" [] = Err TypeError
  /\ BorshAccountsCoder.memcmp DemoEdge.no_accounts_coder "counter" = Err TypeError
  /\ BorshAccountsCoder.decode Demo.legacy_coder "counter" [] <> Err TypeError.
Proof.
  do 2 (split; [reflexivity|]). split; [|split].
  - apply (proj1 (TypeError_iff_no_accounts_member Demo.typeDefLayout Demo.idl_no_accounts
                    DemoEdge.no_accounts_coder "counter" (Demo.VU64 0) [] eq_refl)).
    reflexivity.
  - apply (proj1 (proj2 (TypeError_iff_no_accounts_member Demo.typeDefLayout
                           Demo.idl_no_accounts DemoEdge.no_accounts_coder "counter"
                           (Demo.VU64 0) [] eq_refl))).
    reflexivity.
  - intros Hd.
    apply (proj1 (TypeError_iff_no_accounts_member Demo.typeDefLayout Demo.idl_legacy
                    Demo.legacy_coder "counter" (Demo.VU64 0) [] eq_refl)) in Hd.
    discriminate Hd.
Defined.
